(** * go_proxy: the redirection and logging pipeline of [main.go]

    The development embeds [redirectHandler], [logRequest] and
    [logResponse] of [main.go] together with the parts of Go's standard
    library they call ([net/textproto] header canonicalisation,
    [net/http.Header], [net/url] reference resolution, [io] streams), and
    proves the properties of the pipeline over that embedding.

    Go strings and byte slices are byte sequences: a Go [string] is a Rocq
    [string] (a list of 8-bit [ascii]), a [[]byte] body is a [list byte].
    A Go [map] is a [gmap]; the order in which [range] visits a map is not
    specified by the language, so each [range] statement of the source
    takes its order from an oracle that is only known to enumerate the
    map. *)

From Stdlib Require Import ZArith List Bool Lia.
From Stdlib.Strings Require Import Ascii String Byte.
From stdpp Require Import base option list gmap strings fin_maps.

Local Open Scope string_scope.
Local Open Scope Z_scope.
Local Open Scope list_scope.

(** ** Bytes and strings *)

Module Bytes.

(** [c] as the number Go compares it with ([s[i]] is a [uint8]). *)
Definition code (c : ascii) : N := N_of_ascii c.

Definition between (lo hi : ascii) (c : ascii) : bool :=
  (code lo <=? code c)%N && (code c <=? code hi)%N.

Definition isLower (c : ascii) : bool := between "a" "z" c.
Definition isUpper (c : ascii) : bool := between "A" "Z" c.
Definition isDigit (c : ascii) : bool := between "0" "9" c.

(** [toLower] of [net/textproto] is the constant ['a' - 'A']. *)
Definition toLower : N := 32.

(** [c -= toLower] on an upper-flagged lower-case letter. *)
Definition upcase (c : ascii) : ascii := ascii_of_N (code c - toLower).
(** [c += toLower] on an upper-case letter. *)
Definition downcase (c : ascii) : ascii := ascii_of_N (code c + toLower).

(** [strings.ToLower] on ASCII bytes. *)
Definition lowerByte (c : ascii) : ascii :=
  if isUpper c then downcase c else c.

Fixpoint ToLower (s : string) : string :=
  match s with
  | EmptyString => EmptyString
  | String c s' => String (lowerByte c) (ToLower s')
  end.

Definition mem (c : ascii) (set : string) : bool :=
  existsb (Ascii.eqb c) (list_ascii_of_string set).

(** The double quote, written by its code. *)
Definition dquote : ascii := ascii_of_N 34.

End Bytes.

(** ** net/textproto: canonical header keys *)

Module textproto.
Import Bytes.

(** [validHeaderFieldByte]: the [token] characters of RFC 7230,
    letters, digits and [!#$%&'*+-.^_`|~]. *)
Definition validHeaderFieldByte (c : ascii) : bool :=
  isLower c || isUpper c || isDigit c || mem c "!#$%&'*+-.^_`|~".

(** One byte in the second loop of [canonicalMIMEHeaderKey]: a letter
    in upper case where [upper] is set, in lower case elsewhere. *)
Definition canonByte (upper : bool) (c : ascii) : ascii :=
  if upper && isLower c then upcase c
  else if negb upper && isUpper c then downcase c
  else c.

(** The second loop of [canonicalMIMEHeaderKey]: first letter and every
    letter after a dash in upper case, the others in lower case. *)
Fixpoint canonicalize (upper : bool) (a : string) : string :=
  match a with
  | EmptyString => EmptyString
  | String c a' =>
      let c := canonByte upper c in
      String c (canonicalize (Ascii.eqb c "-") a')
  end.

(** [canonicalMIMEHeaderKey]: a key with a byte that is not a token
    character (a space included) is returned unchanged. *)
Definition canonicalMIMEHeaderKey (a : string) : string :=
  if forallb validHeaderFieldByte (list_ascii_of_string a)
  then canonicalize true a
  else a.

(** The scan of [CanonicalMIMEHeaderKey]: it returns [s] itself when the
    scan meets no byte out of place, and calls
    [canonicalMIMEHeaderKey] on the whole of [s] at the first one. *)
Fixpoint scan (s : string) (upper : bool) (rest : string) : string :=
  match rest with
  | EmptyString => s
  | String c rest' =>
      if negb (validHeaderFieldByte c) then s
      else if upper && isLower c then canonicalMIMEHeaderKey s
      else if negb upper && isUpper c then canonicalMIMEHeaderKey s
      else scan s (Ascii.eqb c "-") rest'
  end.

Definition CanonicalMIMEHeaderKey (s : string) : string := scan s true s.

End textproto.

(** ** net/http: the header map *)

Module Header.

(** [type Header map[string][]string]. *)
Abbreviation t := (gmap string (list string)).

(** [h.Set(key, value)]: [h[CanonicalMIMEHeaderKey(key)] = []string{value}]. *)
Definition Set_ (key value : string) (h : t) : t :=
  <[textproto.CanonicalMIMEHeaderKey key := [value]]> h.

(** [h.Add(key, value)]: [h[key] = append(h[key], value)] at the
    canonical key; a missing key reads as the nil slice. *)
Definition Add (key value : string) (h : t) : t :=
  let key := textproto.CanonicalMIMEHeaderKey key in
  <[key := default [] (h !! key) ++ [value]]> h.

(** The entries of a map in the order one [range] statement visits
    them. *)
Abbreviation entries := (list (string * list string)).

(** [h.Del(key)]. *)
Definition Del (key : string) (h : t) : t :=
  delete (textproto.CanonicalMIMEHeaderKey key) h.

(** [h.get(key)]: the first value under [key] as it is written, the
    empty string when there is none. *)
Definition get (key : string) (h : t) : string :=
  match h !! key with
  | Some (v :: _) => v
  | _ => EmptyString
  end.

End Header.

(** ** strings and strconv: the helpers of the standard library in use *)

Module GoStrings.
Import Bytes.

Definition nonEmpty (s : string) : bool := negb (String.eqb s "").

(** [len(s)]. *)
Definition len (s : string) : Z := Z.of_nat (String.length s).

(** [s[:n]] and [s[n:]] for [0 <= n <= len(s)]. *)
Definition upto (n : Z) (s : string) : string := substring 0 (Z.to_nat n) s.
Definition from (n : Z) (s : string) : string :=
  substring (Z.to_nat n) (String.length s - Z.to_nat n) s.

(** [strings.Cut(s, sep)] for a one-byte separator. *)
Fixpoint Cut (s : string) (sep : ascii) : string * string * bool :=
  match s with
  | EmptyString => (EmptyString, EmptyString, false)
  | String c s' =>
      if Ascii.eqb c sep then (EmptyString, s', true)
      else let '(before, after, found) := Cut s' sep in
           (String c before, after, found)
  end.

(** [strings.Split(s, sep)] for a one-byte separator: the values that
    [elem] takes in a loop of [strings.Cut]. *)
Fixpoint Split (s : string) (sep : ascii) : list string :=
  match s with
  | EmptyString => [EmptyString]
  | String c s' =>
      if Ascii.eqb c sep then EmptyString :: Split s' sep
      else match Split s' sep with
           | e :: es => String c e :: es
           | [] => [String c EmptyString]
           end
  end.

Fixpoint indexFrom (i : Z) (c : ascii) (s : string) : Z :=
  match s with
  | EmptyString => -1
  | String c' s' => if Ascii.eqb c' c then i else indexFrom (i + 1) c s'
  end.

(** [strings.IndexByte(s, c)], [-1] when absent. *)
Definition IndexByte (s : string) (c : ascii) : Z := indexFrom 0 c s.

Fixpoint lastIndexFrom (i last : Z) (c : ascii) (s : string) : Z :=
  match s with
  | EmptyString => last
  | String c' s' => lastIndexFrom (i + 1) (if Ascii.eqb c' c then i else last) c s'
  end.

(** [strings.LastIndexByte(s, c)], [-1] when absent. *)
Definition LastIndexByte (s : string) (c : ascii) : Z := lastIndexFrom 0 (-1) c s.

Definition ContainsByte (s : string) (c : ascii) : bool := mem c s.

Definition CountByte (s : string) (c : ascii) : Z :=
  Z.of_nat (List.length (List.filter (Ascii.eqb c) (list_ascii_of_string s))).

Definition HasPrefix (s prefix : string) : bool := String.prefix prefix s.

Definition HasSuffixByte (s : string) (c : ascii) : bool :=
  match List.last (List.map Some (list_ascii_of_string s)) None with
  | Some c' => Ascii.eqb c' c
  | None => false
  end.

Definition hexDigit (n : N) : ascii :=
  match String.get (N.to_nat n) "0123456789abcdef" with
  | Some c => c
  | None => "0"%char
  end.

Definition backslash : ascii := ascii_of_N 92.

Definition esc (x : ascii) : string := String backslash (String x EmptyString).

(** [strconv.Quote] on a byte below [0x80]; a byte from [0x80] on is
    kept (Go keeps a printable UTF-8 sequence as it is). *)
Definition quoteByte (c : ascii) : string :=
  let n := code c in
  if Ascii.eqb c dquote || Ascii.eqb c backslash then esc c
  else if (n =? 7)%N then esc "a"
  else if (n =? 8)%N then esc "b"
  else if (n =? 12)%N then esc "f"
  else if (n =? 10)%N then esc "n"
  else if (n =? 13)%N then esc "r"
  else if (n =? 9)%N then esc "t"
  else if (n =? 11)%N then esc "v"
  else if (n <? 32)%N || (n =? 127)%N
       then String backslash
              (String "x" (String (hexDigit (n / 16)) (String (hexDigit (n mod 16)) EmptyString)))
       else String c EmptyString.

Definition Quote (s : string) : string :=
  String dquote
    (String.concat EmptyString (List.map quoteByte (list_ascii_of_string s))
     +:+ String dquote EmptyString).

End GoStrings.

(** Go's [error] values are kept as the text their [Error()] method
    returns, which is what [%v] prints. *)
Abbreviation error := string (only parsing).

(** ** net/url *)

Module url.
Import Bytes GoStrings.

(** [url.URL]. Each component is held in its escaped form, the one
    [String()] writes ([EscapedPath()], [EscapedFragment()], the
    userinfo as [User.String()]), so that [String] and
    [ResolveReference], which work on the escaped forms, are the
    functions of the library; [User = None] is the nil [*Userinfo]. *)
Record URL := mkURL {
  Scheme : string;
  Opaque : string;
  User : option string;
  Host : string;
  Path : string;
  OmitHost : bool;
  ForceQuery : bool;
  RawQuery : string;
  Fragment : string
}.

Definition zero : URL := mkURL "" "" None "" "" false false "" "".

Definition set_Path (p : string) (u : URL) : URL :=
  mkURL (Scheme u) (Opaque u) (User u) (Host u) p (OmitHost u) (ForceQuery u)
        (RawQuery u) (Fragment u).

Definition firstByteIs (c : ascii) (s : string) : bool :=
  match s with
  | String c' _ => Ascii.eqb c' c
  | EmptyString => false
  end.

(** [func (u *URL) String() string]. *)
Definition URL_String (u : URL) : string :=
  let buf := if nonEmpty (Scheme u) then Scheme u +:+ ":" else "" in
  let buf :=
    if nonEmpty (Opaque u) then buf +:+ Opaque u
    else
      let buf :=
        if nonEmpty (Scheme u) || nonEmpty (Host u) || bool_decide (is_Some (User u)) then
          if OmitHost u && negb (nonEmpty (Host u)) && negb (bool_decide (is_Some (User u)))
          then buf
          else
            let buf :=
              if nonEmpty (Host u) || nonEmpty (Path u) || bool_decide (is_Some (User u))
              then buf +:+ "//" else buf in
            let buf := match User u with
                       | Some ui => buf +:+ ui +:+ "@"
                       | None => buf
                       end in
            if nonEmpty (Host u) then buf +:+ Host u else buf
        else buf in
      let path := Path u in
      let buf :=
        if nonEmpty path && negb (firstByteIs "/" path) && nonEmpty (Host u)
        then buf +:+ "/" else buf in
      let buf :=
        if negb (nonEmpty buf) && ContainsByte (Cut path "/").1.1 ":"
        then buf +:+ "./" else buf in
      buf +:+ path in
  let buf :=
    if ForceQuery u || nonEmpty (RawQuery u) then buf +:+ "?" +:+ RawQuery u else buf in
  if nonEmpty (Fragment u) then buf +:+ "#" +:+ Fragment u else buf.

(** One turn of the loop of [resolvePath] on [elem], with the builder
    [dst] and the flag [first]. *)
Definition resolveStep (st : string * bool) (elem : string) : string * bool :=
  let '(dst, first) := st in
  if String.eqb elem "." then (dst, false)
  else if String.eqb elem ".." then
    let str := from 1 dst in
    let index := LastIndexByte str "/" in
    if index =? -1 then ("/", true) else ("/" +:+ upto index str, first)
  else
    ((if first then dst else dst +:+ "/") +:+ elem, false).

(** [resolvePath(base, ref)], RFC 3986 sections 5.2.2 to 5.2.4. *)
Definition resolvePath (base ref : string) : string :=
  let full :=
    if negb (nonEmpty ref) then base
    else if negb (firstByteIs "/" ref)
         then upto (LastIndexByte base "/" + 1) base +:+ ref
         else ref in
  if negb (nonEmpty full) then ""
  else
    let elems := Split full "/" in
    let dst := (fold_left resolveStep elems ("/", true)).1 in
    let elem := List.last elems "" in
    let dst := if String.eqb elem "." || String.eqb elem ".." then dst +:+ "/" else dst in
    if (1 <? len dst) && firstByteIs "/" (from 1 dst) then from 1 dst else dst.

(** [func (u *URL) ResolveReference(ref *URL) *URL]; [url := *ref]
    starts from a copy of [ref]. *)
Definition ResolveReference (u ref : URL) : URL :=
  let scheme := if negb (nonEmpty (Scheme ref)) then Scheme u else Scheme ref in
  if nonEmpty (Scheme ref) || nonEmpty (Host ref) || bool_decide (is_Some (User ref)) then
    mkURL scheme (Opaque ref) (User ref) (Host ref) (resolvePath (Path ref) "")
          (OmitHost ref) (ForceQuery ref) (RawQuery ref) (Fragment ref)
  else if nonEmpty (Opaque ref) then
    mkURL scheme (Opaque ref) None "" "" (OmitHost ref) (ForceQuery ref)
          (RawQuery ref) (Fragment ref)
  else
    let inherit :=
      negb (nonEmpty (Path ref)) && negb (ForceQuery ref) && negb (nonEmpty (RawQuery ref)) in
    let rawQuery := if inherit then RawQuery u else RawQuery ref in
    let fragment :=
      if inherit && negb (nonEmpty (Fragment ref)) then Fragment u else Fragment ref in
    if negb (nonEmpty (Path ref)) && nonEmpty (Opaque u) then
      mkURL scheme (Opaque u) None "" "" (OmitHost ref) (ForceQuery ref) rawQuery fragment
    else
      mkURL scheme (Opaque ref) (User u) (Host u) (resolvePath (Path u) (Path ref))
            (OmitHost ref) (ForceQuery ref) rawQuery fragment.

(** *** Parsing

    The parser follows [parse], [getScheme], [parseAuthority] and
    [parseHost] of the library (Go 1.22). It is exact on URLs whose
    components need no percent-coding and whose authority has neither
    userinfo to re-encode nor an IP literal; such components are kept
    as they are written. *)

Definition stringContainsCTLByte (s : string) : bool :=
  existsb (fun c => (code c <? 32)%N || (code c =? 127)%N) (list_ascii_of_string s).

(** [getScheme]: [inr (scheme, path)] or the error. *)
Fixpoint getSchemeFrom (rawURL : string) (i : Z) (rest : string)
  : error + (string * string) :=
  match rest with
  | EmptyString => inr ("", rawURL)
  | String c rest' =>
      if isLower c || isUpper c then getSchemeFrom rawURL (i + 1) rest'
      else if isDigit c || mem c "+-." then
        if i =? 0 then inr ("", rawURL) else getSchemeFrom rawURL (i + 1) rest'
      else if Ascii.eqb c ":" then
        if i =? 0 then inl "missing protocol scheme"
        else inr (upto i rawURL, rest')
      else inr ("", rawURL)
  end.

Definition getScheme (rawURL : string) : error + (string * string) :=
  getSchemeFrom rawURL 0 rawURL.

(** [validOptionalPort]: empty, or a colon and digits. *)
Definition validOptionalPort (port : string) : bool :=
  match port with
  | EmptyString => true
  | String c digits => Ascii.eqb c ":" && forallb isDigit (list_ascii_of_string digits)
  end.

(** The bytes [unescape] accepts unescaped in a host. *)
Definition hostByte (c : ascii) : bool :=
  isLower c || isUpper c || isDigit c || mem c "!$&'()*+,;=:[]<>-_.~"
  || Ascii.eqb c dquote || (128 <=? code c)%N.

Fixpoint firstBad (ok : ascii -> bool) (s : string) : option ascii :=
  match s with
  | EmptyString => None
  | String c s' => if ok c then firstBad ok s' else Some c
  end.

Definition parseHost (host : string) : error + string :=
  let i := LastIndexByte host ":" in
  if negb (firstByteIs "[" host) && negb (i =? -1) && negb (validOptionalPort (from i host))
  then inl ("invalid port " +:+ Quote (from i host) +:+ " after host")
  else match firstBad hostByte host with
       | Some c => inl ("invalid character " +:+ Quote (String c "") +:+ " in host name")
       | None => inr host
       end.

Definition validUserinfo (s : string) : bool :=
  forallb (fun c => isLower c || isUpper c || isDigit c || mem c "-._:~!$&'()*+,;=%@")
          (list_ascii_of_string s).

Definition parseAuthority (authority : string) : error + (option string * string) :=
  let i := LastIndexByte authority "@" in
  match parseHost (if i <? 0 then authority else from (i + 1) authority) with
  | inl err => inl err
  | inr host =>
      if i <? 0 then inr (None, host)
      else if negb (validUserinfo (upto i authority)) then inl "net/url: invalid userinfo"
      else inr (Some (upto i authority), host)
  end.

(** [parse(rawURL, viaRequest)], on URLs whose path holds no percent
    sign and no byte that [String()] would escape: [setPath] keeps the
    path as it is written, and a malformed escape, which the library
    refuses, is not looked for. The handler is proved for any parser;
    this one serves the examples. *)
Definition parse (rawURL : string) (viaRequest : bool) : error + URL :=
  if stringContainsCTLByte rawURL then inl "net/url: invalid control character in URL"
  else if negb (nonEmpty rawURL) && viaRequest then inl "empty url"
  else if String.eqb rawURL "*" then inr (set_Path "*" zero)
  else
    match getScheme rawURL with
    | inl err => inl err
    | inr (scheme, rest) =>
        let scheme := ToLower scheme in
        let '(rest, rawQuery, forceQuery) :=
          if HasSuffixByte rest "?" && (CountByte rest "?" =? 1)
          then (upto (len rest - 1) rest, "", true)
          else let '(before, after, _) := Cut rest "?" in (before, after, false) in
        let withAuthority :=
          if (nonEmpty scheme || negb viaRequest && negb (HasPrefix rest "///"))
             && HasPrefix rest "//"
          then
            let authority := from 2 rest in
            let i := IndexByte authority "/" in
            let '(authority, rest) :=
              if 0 <=? i then (upto i authority, from i authority) else (authority, "") in
            match parseAuthority authority with
            | inl err => inl err
            | inr (user, host) =>
                inr (mkURL scheme "" user host rest false forceQuery rawQuery "")
            end
          else
            inr (mkURL scheme "" None "" rest (nonEmpty scheme && HasPrefix rest "/")
                       forceQuery rawQuery "") in
        if negb (HasPrefix rest "/") then
          if nonEmpty scheme
          then inr (mkURL scheme rest None "" "" false forceQuery rawQuery "")
          else if viaRequest then inl "invalid URI for request"
          else if ContainsByte (Cut rest "/").1.1 ":"
               then inl "first path segment in URL cannot contain colon"
               else withAuthority
        else withAuthority
    end.

(** The text of a [url.Error]: the operation, the quoted URL, a colon
    and the text of the wrapped error. *)
Definition Error (Op URL_ : string) (Err : error) : error :=
  Op +:+ " " +:+ Quote URL_ +:+ ": " +:+ Err.

Definition set_Fragment (f : string) (u : URL) : URL :=
  mkURL (Scheme u) (Opaque u) (User u) (Host u) (Path u) (OmitHost u) (ForceQuery u)
        (RawQuery u) f.

(** [url.Parse(rawURL)]. *)
Definition Parse (rawURL : string) : error + URL :=
  let '(u, frag, _) := Cut rawURL "#" in
  match parse u false with
  | inl err => inl (Error "parse" u err)
  | inr url => inr (if nonEmpty frag then set_Fragment frag url else url)
  end.

(** [url.ParseRequestURI(rawURL)], which the server applies to the
    request line. *)
Definition ParseRequestURI (rawURL : string) : error + URL :=
  match parse rawURL true with
  | inl err => inl (Error "parse" rawURL err)
  | inr url => inr url
  end.

End url.

(** ** io: one-pass streams *)

Module io.

(** An [io.ReadCloser]: the bytes it still delivers, and how it ends
    once they are read, with [io.EOF] ([None]) or with an error, which
    every later read returns again. *)
Record Reader := mkReader { pending : list byte; fault : option error }.

(** [io.ReadAll(r)] (and [ioutil.ReadAll]): the bytes read and the
    error, [nil] at [io.EOF]; the stream is left drained. *)
Definition ReadAll (r : Reader) : list byte * option error * Reader :=
  (pending r, fault r, mkReader [] (fault r)).

(** [io.NopCloser(bytes.NewBuffer(body))]: a new stream over [body]. *)
Definition NopCloser_NewBuffer (body : list byte) : Reader := mkReader body None.

End io.

(** ** net/http: requests, responses and the response writer *)

Module Request.
Record t := mk {
  Method : string;
  URL : url.URL;
  Header : Header.t;
  Body : io.Reader
}.
Definition set_Body (b : io.Reader) (r : t) : t := mk (Method r) (URL r) (Header r) b.
Definition set_Header (h : Header.t) (r : t) : t := mk (Method r) (URL r) h (Body r).
End Request.

Module Response.
Record t := mk {
  Status : string;
  StatusCode : Z;
  Header : Header.t;
  Body : io.Reader
}.
Definition set_Body (b : io.Reader) (r : t) : t :=
  mk (Status r) (StatusCode r) (Header r) b.
End Response.

Module ResponseWriter.

(** The writer the server hands to a handler (the [response] of
    [net/http], Go 1.23): the header map [w.Header()]; the status once
    [WriteHeader] has written the header; the body bytes that [Write]
    accepted (for a HEAD request the server accepts them and sends
    none); the interim responses sent before the header; the length the
    header declared when it was written and the count of the bytes
    handed to [Write]; and the connection to the client, [None] while
    it takes every byte, [Some (n, err)] when [Write] is given [n]
    more bytes and then fails with [err]. The header the server sends
    is a copy of the map that it completes on its own (Date, a sniffed
    Content-Type, the framing); that copy is left out. *)
Record t := mk {
  header : Header.t;
  status : option Z;
  body : list byte;
  interim : list Z;
  contentLength : option Z;
  written : Z;
  room : option (nat * error)
}.

(** The writer of a new request, on a connection in the state [room]. *)
Definition connected (room : option (nat * error)) : t := mk ∅ None [] [] None 0 room.

(** The writer of a new request whose client stays connected. *)
Definition fresh : t := connected None.

Definition set_header (h : Header.t) (w : t) : t :=
  mk h (status w) (body w) (interim w) (contentLength w) (written w) (room w).

(** [checkWriteHeaderCode]: a code of three digits, or a panic. *)
Definition checkWriteHeaderCode (code : Z) : bool := (100 <=? code) && (code <=? 999).

(** The codes [WriteHeader] sends as an interim response: 1xx but 101. *)
Definition informational (code : Z) : bool :=
  (100 <=? code) && (code <=? 199) && negb (code =? 101).

(** The codes [WriteHeader] writes as the status of the response. *)
Definition finalStatus (code : Z) : bool :=
  checkWriteHeaderCode code && negb (informational code).

(** [bodyAllowedForStatus]. *)
Definition bodyAllowedForStatus (status : Z) : bool :=
  negb ((100 <=? status) && (status <=? 199))
  && negb (status =? 204) && negb (status =? 304).

Fixpoint digitsValue (acc : Z) (s : string) : option Z :=
  match s with
  | EmptyString => Some acc
  | String c s' =>
      if Bytes.isDigit c
      then digitsValue (10 * acc + Z.of_N (Bytes.code c) - 48) s'
      else None
  end.

(** The value of a Content-Length that [WriteHeader] keeps:
    [strconv.ParseInt(cl, 10, 64)] without error and not negative. *)
Definition declaredLength (cl : string) : option Z :=
  let '(negative, digits) :=
    match cl with
    | String "+" digits => (false, digits)
    | String "-" digits => (true, digits)
    | _ => (false, cl)
    end in
  match digits with
  | EmptyString => None
  | _ =>
      match digitsValue 0 digits with
      | Some v =>
          if negative then (if v =? 0 then Some 0 else None)
          else if v <=? 9223372036854775807 then Some v else None
      | None => None
      end
  end.

(** Whether [w.WriteHeader(code)] panics: the check of the code comes
    after the test for a header already written. *)
Definition panics (code : Z) (w : t) : bool :=
  match status w with
  | Some _ => false
  | None => negb (checkWriteHeaderCode code)
  end.

(** The header map once the status is written: a Content-Length that
    declares no length is deleted from it. *)
Definition checkedLength (h : Header.t) : Header.t :=
  match declaredLength (Header.get "Content-Length" h) with
  | Some _ => h
  | None =>
      if String.eqb (Header.get "Content-Length" h) EmptyString then h
      else Header.Del "Content-Length" h
  end.

(** [w.WriteHeader(code)] when it returns: a second call changes
    nothing, a 1xx code other than 101 goes out as an interim response
    and leaves the header unwritten, any other code is the status and
    fixes the declared length. Where the call panics the writer is as
    before. *)
Definition WriteHeader (code : Z) (w : t) : t :=
  match status w with
  | Some _ => w
  | None =>
      if negb (checkWriteHeaderCode code) then w
      else if informational code then
        mk (header w) None (body w) (interim w ++ [code]) (contentLength w) (written w)
           (room w)
      else
        mk (checkedLength (header w)) (Some code) (body w) (interim w)
           (declaredLength (Header.get "Content-Length" (header w))) (written w) (room w)
  end.

Definition ErrBodyNotAllowed : error :=
  "http: request method or response status code does not allow body".

Definition ErrContentLength : error :=
  "http: wrote more than the declared Content-Length".

(** The writer with [p] more bytes on a connection left in [room]. *)
Definition accept (p : list byte) (room : option (nat * error)) (w : t) : t :=
  mk (header w) (status w) (body w ++ p) (interim w) (contentLength w) (written w) room.

(** [w.Write(p)]: the writer after the call and the error it returns.
    The status 200 is written first if none was; no byte is taken when
    the status allows no body or the declared length is exceeded; the
    connection takes the bytes it has room for. *)
Definition write (p : list byte) (w : t) : t * option error :=
  let w := WriteHeader 200 w in
  match p with
  | [] => (w, None)
  | _ :: _ =>
      if negb (match status w with
               | Some st => bodyAllowedForStatus st
               | None => true
               end)
      then (w, Some ErrBodyNotAllowed)
      else
        let count := written w + Z.of_nat (List.length p) in
        let w := mk (header w) (status w) (body w) (interim w) (contentLength w) count
                    (room w) in
        match contentLength w with
        | Some declared =>
            if declared <? count then (w, Some ErrContentLength) else
            match room w with
            | None => (accept p None w, None)
            | Some (n, err) =>
                if (List.length p <=? n)%nat
                then (accept p (Some ((n - List.length p)%nat, err)) w, None)
                else (accept (firstn n p) (Some (0%nat, err)) w, Some err)
            end
        | None =>
            match room w with
            | None => (accept p None w, None)
            | Some (n, err) =>
                if (List.length p <=? n)%nat
                then (accept p (Some ((n - List.length p)%nat, err)) w, None)
                else (accept (firstn n p) (Some (0%nat, err)) w, Some err)
            end
        end
  end.

Definition Write (p : list byte) (w : t) : t := (write p w).1.

Definition WriteError (p : list byte) (w : t) : option error := (write p w).2.

(** [http.Error(w, error, code)]: Content-Length deleted, the two
    headers set, the status written, and the message followed by a
    newline ([fmt.Fprintln], whose error is dropped). With a code that
    makes [WriteHeader] panic nothing is written; the handler calls it
    with 500 only. *)
Definition Error (msg : string) (code : Z) (w : t) : t :=
  let w := set_header (Header.Del "Content-Length" (header w)) w in
  let w := set_header (Header.Set_ "Content-Type" "text/plain; charset=utf-8" (header w)) w in
  let w := set_header (Header.Set_ "X-Content-Type-Options" "nosniff" (header w)) w in
  if panics code w then w
  else Write (list_byte_of_string (msg +:+ String (ascii_of_N 10) EmptyString))
             (WriteHeader code w).

End ResponseWriter.

Definition StatusInternalServerError : Z := 500.

(** ** The state of one request and its monad *)

(** The three loggers that [main] builds and passes to the handler. *)
Inductive Logger := requestLogger | responseLogger | errorLogger.

(** What a run of the handler acts on: the lines each logger was sent
    (one per [Printf]), the response writer [w], and the requests handed
    to [client.Do]. *)
Record World := mkWorld {
  requestLog : list string;
  responseLog : list string;
  errorLog : list string;
  w : ResponseWriter.t;
  upstream : list Request.t
}.

Definition M (A : Type) : Type := World -> A * World.

Definition ret {A} (a : A) : M A := fun s => (a, s).

Definition bind {A B} (m : M A) (k : A -> M B) : M B :=
  fun s => let '(a, s') := m s in k a s'.

Declare Scope proxy_scope.
Delimit Scope proxy_scope with proxy.
Notation "'let*' x ':=' m 'in' k" := (bind m (fun x => k))
  (at level 10, x name, m at level 100, k at level 200) : proxy_scope.
Notation "m >> k" := (bind m (fun _ => k))
  (at level 100, k at level 200, right associativity) : proxy_scope.
Local Open Scope proxy_scope.

(** [for _, x := range l { body }] over a slice. *)
Fixpoint forEach {A} (l : list A) (body : A -> M unit) : M unit :=
  match l with
  | [] => ret tt
  | x :: l' => body x >> forEach l' body
  end.

(** [logger.Printf(...)], with the line already formatted. *)
Definition Printf (logger : Logger) (line : string) : M unit :=
  fun s =>
    (tt, match logger with
         | requestLogger =>
             mkWorld (requestLog s ++ [line]) (responseLog s) (errorLog s) (w s) (upstream s)
         | responseLogger =>
             mkWorld (requestLog s) (responseLog s ++ [line]) (errorLog s) (w s) (upstream s)
         | errorLogger =>
             mkWorld (requestLog s) (responseLog s) (errorLog s ++ [line]) (w s) (upstream s)
         end).

(** An action on the response writer [w]. *)
Definition onWriter (f : ResponseWriter.t -> ResponseWriter.t) : M unit :=
  fun s => (tt, mkWorld (requestLog s) (responseLog s) (errorLog s) (f (w s)) (upstream s)).

(** [http.Error(w, error, code)] on the writer of the request. *)
Definition http_Error (msg : string) (code : Z) : M unit :=
  onWriter (ResponseWriter.Error msg code).

(** [w.WriteHeader(code)] in the handler: [false] when the call panics,
    which ends the handler with the world as it is. *)
Definition w_WriteHeader (code : Z) : M bool :=
  fun s =>
    if ResponseWriter.panics code (w s) then (false, s)
    else (true,
          mkWorld (requestLog s) (responseLog s) (errorLog s)
                  (ResponseWriter.WriteHeader code (w s)) (upstream s)).

(** [w.Write(p)] in the handler, with the error it returns. *)
Definition w_Write (p : list byte) : M (option error) :=
  fun s =>
    (ResponseWriter.WriteError p (w s),
     mkWorld (requestLog s) (responseLog s) (errorLog s)
             (ResponseWriter.Write p (w s)) (upstream s)).

(** [io.Copy(w, src)] on a body as the handler has it, a buffer (handed
    to [w.Write] in one call when it is not empty) or a drained stream:
    the error is the one of the write, or else the one [src] ends with. *)
Definition io_Copy (src : io.Reader) : M (option error) :=
  match io.pending src with
  | [] => ret (io.fault src)
  | p =>
      let* err := w_Write p in
      match err with
      | Some err => ret (Some err)
      | None => ret (io.fault src)
      end
  end.

(** The [range] statements over a map, by where they stand in the source. *)
Inductive Site := LogRequestHeaders | CopyHeaders | LogResponseHeaders | ForwardHeaders.

(** ** main.go *)

Section Proxy.

(** [url.Parse], the parser of the library. The handler is stated over
    any parser, so that what is proved of it does not rest on the model
    of [net/url]; [url.Parse] above is the instance of the examples. *)
Variable url_Parse : string -> error + url.URL.

(** [client.Do]: what the upstream server answers to a request, or
    the error of the attempt. *)
Variable client_Do : Request.t -> error + Response.t.

(** The order in which each [range] statement visits a header map. *)
Variable range : Site -> Header.t -> Header.entries.

(** [validMethod]: a non-empty token. *)
Definition validMethod (method : string) : bool :=
  GoStrings.nonEmpty method
  && forallb textproto.validHeaderFieldByte (list_ascii_of_string method).

(** [removeEmptyPort]: a closing colon with no port after it is cut. *)
Definition removeEmptyPort (host : string) : string :=
  if (GoStrings.LastIndexByte host "]" <? GoStrings.LastIndexByte host ":")
     && GoStrings.HasSuffixByte host ":"
  then GoStrings.upto (GoStrings.len host - 1) host
  else host.

Definition set_Host (host : string) (u : url.URL) : url.URL :=
  url.mkURL (url.Scheme u) (url.Opaque u) (url.User u) host (url.Path u) (url.OmitHost u)
            (url.ForceQuery u) (url.RawQuery u) (url.Fragment u).

(** [http.NewRequest(method, url, body)]: the empty method reads as
    GET, the method is checked, the URL parsed, and the request starts
    with an empty header and [body] as its body. *)
Definition http_NewRequest (method url_ : string) (body : io.Reader) : error + Request.t :=
  let method := if GoStrings.nonEmpty method then method else "GET" in
  if negb (validMethod method)
  then inl ("net/http: invalid method " +:+ GoStrings.Quote method)
  else match url_Parse url_ with
       | inl err => inl err
       | inr u => inr (Request.mk method (set_Host (removeEmptyPort (url.Host u)) u) ∅ body)
       end.

(** [client.Do(proxyReq)], recorded as one attempt. *)
Definition Do (proxyReq : Request.t) : M (error + Response.t) :=
  fun s =>
    (client_Do proxyReq,
     mkWorld (requestLog s) (responseLog s) (errorLog s) (w s) (upstream s ++ [proxyReq])).

(** [func logRequest(r *http.Request, logger *log.Logger)]; the
    request it returns is [r] after the call. *)
Definition logRequest (r : Request.t) (logger : Logger) : M Request.t :=
  Printf logger ("Request: " +:+ Request.Method r +:+ " " +:+ url.URL_String (Request.URL r)) >>
  forEach (range LogRequestHeaders (Request.Header r)) (fun '(name, values) =>
    forEach values (fun value =>
      Printf logger ("Request Header: " +:+ name +:+ ": " +:+ value))) >>
  let '(body, err, drained) := io.ReadAll (Request.Body r) in
  match err with
  | Some err =>
      Printf logger ("Failed to read request body: " +:+ err) >>
      ret (Request.set_Body drained r)
  | None =>
      let r := Request.set_Body (io.NopCloser_NewBuffer body) r in
      Printf logger ("Request Body: " +:+ string_of_list_byte body) >>
      ret r
  end.

(** [func logResponse(resp *http.Response, logger *log.Logger)]. *)
Definition logResponse (resp : Response.t) (logger : Logger) : M Response.t :=
  Printf logger ("Response: " +:+ Response.Status resp) >>
  forEach (range LogResponseHeaders (Response.Header resp)) (fun '(name, values) =>
    forEach values (fun value =>
      Printf logger ("Response Header: " +:+ name +:+ ": " +:+ value))) >>
  let '(body, err, drained) := io.ReadAll (Response.Body resp) in
  match err with
  | Some err =>
      Printf logger ("Failed to read response body: " +:+ err) >>
      ret (Response.set_Body drained resp)
  | None =>
      let resp := Response.set_Body (io.NopCloser_NewBuffer body) resp in
      Printf logger ("Response Body: " +:+ string_of_list_byte body) >>
      ret resp
  end.

(** The body of the inner loop of "Copy and modify headers". *)
Definition copyValue (name : string) (h : Header.t) (value : string) : Header.t :=
  if String.eqb name "User-Agent"
  then Header.Set_ name "MyCustomUserAgent" h
  else Header.Add name value h.

(** The inner loop, over the values of one name. *)
Definition copyEntry (h : Header.t) (e : string * list string) : Header.t :=
  fold_left (copyValue e.1) e.2 h.

(** The two loops, over the entries in the order of the [range]. *)
Definition copyHeaders (entries : Header.entries) (h : Header.t) : Header.t :=
  fold_left copyEntry entries h.

(** The header of [proxyReq] when it is sent: the copy, then
    [proxyReq.Header.Set("X-Added-Header", "HeaderValue")]. *)
Definition transformHeaders (r proxyReq : Request.t) : Request.t :=
  let proxyReq :=
    Request.set_Header
      (copyHeaders (range CopyHeaders (Request.Header r)) (Request.Header proxyReq))
      proxyReq in
  Request.set_Header (Header.Set_ "X-Added-Header" "HeaderValue" (Request.Header proxyReq))
                     proxyReq.

(** [func redirectHandler(w, r, targetServer, requestLogger,
    responseLogger, errorLogger)]. A panic of [w.WriteHeader] ends the
    run where it stands: the handler recovers from nothing. *)
Definition redirectHandler (r : Request.t) (targetServer : string) : M unit :=
  let* r := logRequest r requestLogger in
  match url_Parse targetServer with
  | inl err =>
      http_Error "Invalid target server URL" StatusInternalServerError >>
      Printf errorLogger ("Invalid target server URL: " +:+ err)
  | inr target =>
      let proxyURL := url.ResolveReference target (Request.URL r) in
      match http_NewRequest (Request.Method r) (url.URL_String proxyURL) (Request.Body r) with
      | inl err =>
          http_Error "Failed to create request" StatusInternalServerError >>
          Printf errorLogger ("Failed to create request: " +:+ err)
      | inr proxyReq =>
          let proxyReq := transformHeaders r proxyReq in
          let* res := Do proxyReq in
          match res with
          | inl err =>
              http_Error "Failed to connect to server" StatusInternalServerError >>
              Printf errorLogger ("Failed to connect to server: " +:+ err)
          | inr resp =>
              let* resp := logResponse resp responseLogger in
              forEach (range ForwardHeaders (Response.Header resp)) (fun '(key, value) =>
                forEach value (fun v =>
                  onWriter (fun w =>
                    ResponseWriter.set_header
                      (Header.Add key v (ResponseWriter.header w)) w))) >>
              let* returned := w_WriteHeader (Response.StatusCode resp) in
              if returned then
                let* err := io_Copy (Response.Body resp) in
                match err with
                | Some err => Printf errorLogger ("Failed to copy response body: " +:+ err)
                | None => ret tt
                end
              else ret tt
          end
      end
  end.

End Proxy.

(** ** main.go: configuration and start-up *)

(** [type Config struct]. *)
Record Config := mkConfig { Port : string; TargetServer : string }.

(** The flags [main] opens the log files with. *)
Inductive Flag := O_APPEND | O_CREATE | O_WRONLY.

(** What [main] asks of the system, each call with its arguments. *)
Inductive Call :=
| ioutil_ReadFile (filename : string)
| os_MkdirAll (path : string) (perm : Z)
| os_OpenFile (name : string) (flag : list Flag) (perm : Z)
| http_ListenAndServe (addr : string).

(** How the system answers: the content of a file or the error of the
    read, what [yaml.Unmarshal] makes of the bytes (a [Config] filled
    from its zero value, or an error), the error of a directory or of a
    file if any, and the error [http.ListenAndServe] returns with,
    [None] while it goes on serving. *)
Record System := mkSystem {
  readFile : string -> error + list byte;
  unmarshal : list byte -> error + Config;
  mkdirAll : string -> option error;
  openFile : string -> option error;
  listenAndServe : string -> option error
}.

(** The process as [main] leaves it: the calls made, the lines of the
    standard logger, the lines sent to [errorLogger], the status of
    [os.Exit] once a [Fatalf] has run, and the handler set as
    [proxy.NonproxyHandler]. *)
Record Process := mkProcess {
  calls : list Call;
  stdLog : list string;
  errorLoggerLines : list string;
  exit : option Z;
  NonproxyHandler : option (Request.t -> M unit)
}.

(** A step of [main]: [None] once the process has exited. *)
Definition Start (A : Type) : Type := Process -> option A * Process.

Definition done_ {A} (a : A) : Start A := fun p => (Some a, p).

Definition andThen {A B} (m : Start A) (k : A -> Start B) : Start B :=
  fun p => match m p with
           | (Some a, p') => k a p'
           | (None, p') => (None, p')
           end.

Declare Scope startup_scope.
Delimit Scope startup_scope with startup.
Notation "'let*' x ':=' m 'in' k" := (andThen m (fun x => k))
  (at level 10, x name, m at level 100, k at level 200) : startup_scope.
Notation "m >> k" := (andThen m (fun _ => k))
  (at level 100, k at level 200, right associativity) : startup_scope.

Definition os_ModePerm : Z := 511.

Section Startup.
Local Open Scope startup_scope.

Variable sys : System.
Variable url_Parse : string -> error + url.URL.
Variable client_Do : Request.t -> error + Response.t.
Variable range : Site -> Header.t -> Header.entries.

(** A call, recorded, with the answer of the system. *)
Definition ask {A} (c : Call) (answer : A) : Start A :=
  fun p => (Some answer,
            mkProcess (calls p ++ [c]) (stdLog p) (errorLoggerLines p) (exit p)
                      (NonproxyHandler p)).

(** [log.Printf] on the standard logger. *)
Definition log_Printf (line : string) : Start unit :=
  fun p => (Some tt,
            mkProcess (calls p) (stdLog p ++ [line]) (errorLoggerLines p) (exit p)
                      (NonproxyHandler p)).

(** [log.Fatalf]: the line, then [os.Exit(1)]. *)
Definition log_Fatalf {A} (line : string) : Start A :=
  fun p => (None,
            mkProcess (calls p) (stdLog p ++ [line]) (errorLoggerLines p) (Some 1)
                      (NonproxyHandler p)).

(** [errorLogger.Fatalf]: the line on the error logger, then [os.Exit(1)]. *)
Definition errorLogger_Fatalf {A} (line : string) : Start A :=
  fun p => (None,
            mkProcess (calls p) (stdLog p) (errorLoggerLines p ++ [line]) (Some 1)
                      (NonproxyHandler p)).

(** [proxy.NonproxyHandler = http.HandlerFunc(...)]. *)
Definition setNonproxyHandler (h : Request.t -> M unit) : Start unit :=
  fun p => (Some tt,
            mkProcess (calls p) (stdLog p) (errorLoggerLines p) (exit p) (Some h)).

(** [func loadConfig(filename string)]: the configuration or the error. *)
Definition loadConfig (filename : string) : Start (error + Config) :=
  let* data := ask (ioutil_ReadFile filename) (readFile sys filename) in
  match data with
  | inl err => done_ (inl err)
  | inr data =>
      match unmarshal sys data with
      | inl err => done_ (inl err)
      | inr config => done_ (inr config)
      end
  end.

(** The three calls of [os.OpenFile] in [main]. *)
Definition openLog (name : string) : Start (option error) :=
  ask (os_OpenFile name [O_APPEND; O_CREATE; O_WRONLY] 438) (openFile sys name).

(** [func main()]. *)
Definition main : Start unit :=
  let* config := loadConfig "config.yaml" in
  match config with
  | inl err => log_Fatalf ("Failed to load config: " +:+ err)
  | inr config =>
      let* err := ask (os_MkdirAll "logs" os_ModePerm) (mkdirAll sys "logs") in
      match err with
      | Some err => log_Fatalf ("Failed to create logs directory: " +:+ err)
      | None =>
          let* err := openLog "logs/request.log" in
          match err with
          | Some err => log_Fatalf ("Failed to open request log file: " +:+ err)
          | None =>
              let* err := openLog "logs/response.log" in
              match err with
              | Some err => log_Fatalf ("Failed to open response log file: " +:+ err)
              | None =>
                  let* err := openLog "logs/error.log" in
                  match err with
                  | Some err => log_Fatalf ("Failed to open error log file: " +:+ err)
                  | None =>
                      setNonproxyHandler (fun req =>
                        redirectHandler url_Parse client_Do range req (TargetServer config)) >>
                      log_Printf ("Starting proxy server on localhost:" +:+ Port config) >>
                      let* err := ask (http_ListenAndServe ("localhost:" +:+ Port config))
                                      (listenAndServe sys ("localhost:" +:+ Port config)) in
                      match err with
                      | Some err => errorLogger_Fatalf ("ListenAndServe: " +:+ err)
                      | None => done_ tt
                      end
                  end
              end
          end
      end
  end.

End Startup.

(** The process before [main] runs. *)
Definition newProcess : Process := mkProcess [] [] [] None None.

(** The calls of a start-up that gets to the listener. *)
Definition startupCalls (config : Config) : list Call :=
  [ioutil_ReadFile "config.yaml";
   os_MkdirAll "logs" 511;
   os_OpenFile "logs/request.log" [O_APPEND; O_CREATE; O_WRONLY] 438;
   os_OpenFile "logs/response.log" [O_APPEND; O_CREATE; O_WRONLY] 438;
   os_OpenFile "logs/error.log" [O_APPEND; O_CREATE; O_WRONLY] 438;
   http_ListenAndServe ("localhost:" +:+ Port config)].

(** The system lets the start-up through to the listener with [config]. *)
Definition startsWith (sys : System) (config : Config) : Prop :=
  (exists data, readFile sys "config.yaml" = inr data /\ unmarshal sys data = inr config)
  /\ mkdirAll sys "logs" = None
  /\ openFile sys "logs/request.log" = None
  /\ openFile sys "logs/response.log" = None
  /\ openFile sys "logs/error.log" = None.

(** ** Derived notions used in the statements *)

Abbreviation canon := textproto.CanonicalMIMEHeaderKey.

(** The world after [lines] were sent to [logger]. *)
Definition appendLog (logger : Logger) (lines : list string) (s : World) : World :=
  match logger with
  | requestLogger =>
      mkWorld (requestLog s ++ lines) (responseLog s) (errorLog s) (w s) (upstream s)
  | responseLogger =>
      mkWorld (requestLog s) (responseLog s ++ lines) (errorLog s) (w s) (upstream s)
  | errorLogger =>
      mkWorld (requestLog s) (responseLog s) (errorLog s ++ lines) (w s) (upstream s)
  end.

(** One line for each pair of a name and one of its values. *)
Definition headerLines (prefix : string) (entries : Header.entries) : list string :=
  flat_map (fun e => List.map (fun value => prefix +:+ e.1 +:+ ": " +:+ value) e.2) entries.

(** The header of the client response after the loop "Forward the
    response to the client" over [entries]. *)
Definition forwardHeaders (entries : Header.entries) (h : Header.t) : Header.t :=
  fold_left (fun h e => fold_left (fun h v => Header.Add e.1 v h) e.2 h) entries h.

(** The bytes of a message of [http.Error]. *)
Definition errorBody (msg : string) : list byte :=
  list_byte_of_string (msg +:+ String (ascii_of_N 10) EmptyString).

(** The lines [logRequest] and [logResponse] write before they read the
    body: the first line, then the header lines. *)
Definition requestHead (range : Site -> Header.t -> Header.entries) (r : Request.t)
  : list string :=
  ("Request: " +:+ Request.Method r +:+ " " +:+ url.URL_String (Request.URL r))
  :: headerLines "Request Header: " (range LogRequestHeaders (Request.Header r)).

Definition responseHead (range : Site -> Header.t -> Header.entries) (resp : Response.t)
  : list string :=
  ("Response: " +:+ Response.Status resp)
  :: headerLines "Response Header: " (range LogResponseHeaders (Response.Header resp)).

(** The world after an action on the writer, and after one attempt. *)
Definition withWriter (f : ResponseWriter.t -> ResponseWriter.t) (s : World) : World :=
  mkWorld (requestLog s) (responseLog s) (errorLog s) (f (w s)) (upstream s).

Definition withAttempt (proxyReq : Request.t) (s : World) : World :=
  mkWorld (requestLog s) (responseLog s) (errorLog s) (w s) (upstream s ++ [proxyReq]).

(** The error [io.Copy] returns for the body [src] on the writer [w0]. *)
Definition copyError (src : io.Reader) (w0 : ResponseWriter.t) : option error :=
  match io.pending src with
  | [] => io.fault src
  | p => match ResponseWriter.WriteError p w0 with
         | Some err => Some err
         | None => io.fault src
         end
  end.

(** The world after the response [resp] was forwarded from the world
    [s], with the headers visited in the order [entries]: the headers
    added, then, unless [WriteHeader] panics, the status, the body and
    the line of a failed copy. *)
Definition relay (entries : Header.entries) (resp : Response.t) (s : World) : World :=
  let s :=
    withWriter (fun w =>
      ResponseWriter.set_header (forwardHeaders entries (ResponseWriter.header w)) w) s in
  if ResponseWriter.panics (Response.StatusCode resp) (w s) then s
  else
    let s := withWriter (ResponseWriter.WriteHeader (Response.StatusCode resp)) s in
    let s' :=
      match io.pending (Response.Body resp) with
      | [] => s
      | p => withWriter (ResponseWriter.Write p) s
      end in
    match copyError (Response.Body resp) (w s) with
    | Some err => appendLog errorLogger ["Failed to copy response body: " +:+ err] s'
    | None => s'
    end.


(** The number of pairs of a name and one of its values. *)
Definition pairCount (entries : Header.entries) : nat :=
  list_sum (List.map (fun e => List.length e.2) entries).

(** A key made of token bytes only, the keys that get rewritten. *)
Definition allValid (s : string) : bool :=
  forallb textproto.validHeaderFieldByte (list_ascii_of_string s).

(** No key of [h] is a case variant of [name] other than [name] itself:
    on the wire, [h] has one header of that name at most. *)
Definition oneSpelling (name : string) (h : Header.t) : Prop :=
  forall k, is_Some (h !! k) -> Bytes.ToLower k = Bytes.ToLower name -> k = name.

(** Every key of [h] is the canonical form of some key. *)
Definition canonKeys (h : Header.t) : Prop :=
  forall k, is_Some (h !! k) -> exists k0, k = canon k0.

(** A header map as the parsers of [net/http] build it: every key is in
    canonical form and has at least one value. *)
Definition parsedHeader (h : Header.t) : Prop :=
  map_Forall (fun k vs => canon k = k /\ vs <> []) h.

(** No key of [h] other than [name] itself has values that a copy would
    store under the canonical form of [name]. *)
Definition soleKey (name : string) (h : Header.t) : Prop :=
  map_Forall (fun k vs => vs <> [] -> canon k = canon name -> k = name) h.

(** The requests a run handed to [client.Do], given the ones before it. *)
Definition sent (before after : World) : list Request.t :=
  drop (List.length (upstream before)) (upstream after).

(** A world with nothing logged, a fresh writer and no attempt made. *)
Definition newWorld : World := mkWorld [] [] [] ResponseWriter.fresh [].

(** All that is known of the order of a [range] over a map: it visits
    every entry of the map once. *)
Definition enumerates (range : Site -> Header.t -> Header.entries) : Prop :=
  forall site h, range site h ≡ₚ map_to_list h.

(** The order of the map's own enumeration, one possible [range] order. *)
Definition mapOrder : Site -> Header.t -> Header.entries := fun _ h => map_to_list h.

(** The request [redirectHandler] builds for [r] (from the call of
    [logRequest] to the last header set), when it gets to build one. *)
Definition proxyRequest (url_Parse : string -> error + url.URL)
    (range : Site -> Header.t -> Header.entries)
    (r : Request.t) (targetServer : string) (s : World) : option Request.t :=
  let r := (logRequest range r requestLogger s).1 in
  match url_Parse targetServer with
  | inl _ => None
  | inr target =>
      match http_NewRequest url_Parse (Request.Method r)
              (url.URL_String (url.ResolveReference target (Request.URL r)))
              (Request.Body r) with
      | inl _ => None
      | inr proxyReq => Some (transformHeaders range r proxyReq)
      end
  end.

(** ** Sample data *)

Module Sample.

(** The target of the spec's example and the inbound URL, as the
    server parses [/v1/items?x=1] from the request line. *)
Definition targetServer : string := "http://api.example.com/base".

Definition inboundURL : url.URL :=
  url.mkURL "" "" None "" "/v1/items" false false "x=1" "".

Definition body (text : string) : io.Reader :=
  io.mkReader (list_byte_of_string text) None.

(** A stream that delivers three bytes and then fails. *)
Definition brokenBody : io.Reader :=
  io.mkReader (list_byte_of_string "par") (Some "unexpected EOF").

(** A request with two User-Agent values and a repeated Accept value. *)
Definition request : Request.t :=
  Request.mk "POST" inboundURL
    (<["User-Agent" := ["curl/8"; "probe"]]> (<["Accept" := ["a"; "a"]]> ∅))
    (body "payload").

(** A request with no header at all. *)
Definition bare : Request.t := Request.mk "GET" inboundURL ∅ (body "").

(** A request whose header map was filled in directly, with a key that
    is not in canonical form. *)
Definition lowerCase : Request.t :=
  Request.mk "GET" inboundURL (<["user-agent" := ["curl/8"]]> ∅) (body "").

Definition brokenRequest : Request.t :=
  Request.mk "POST" inboundURL (<["Accept" := ["a"]]> ∅) brokenBody.

(** The upstream response of the spec's example. *)
Definition created : Response.t :=
  Response.mk "201 Created" 201 (<["X-Foo" := ["a"; "b"]]> ∅) (body "hello").

Definition upstreamCreated (_ : Request.t) : error + Response.t := inr created.



Definition upstreamDown (_ : Request.t) : error + Response.t :=
  inl "dial tcp: connection refused".

End Sample.

(** ** More sample data *)

Module More.

(** A request whose method is not a token, built outside the server. *)
Definition badMethod : Request.t :=
  Request.mk "BAD METHOD" Sample.inboundURL ∅ (Sample.body "").

(** A configuration file that reads and parses, and a system that lets
    every step of the start-up through, the listener failing or not. *)
Definition config : Config := mkConfig "8080" Sample.targetServer.

Definition system (listen : option error) : System :=
  mkSystem (fun _ => inr []) (fun _ => inr config) (fun _ => None) (fun _ => None)
           (fun _ => listen).

(** A system whose [logs/response.log] cannot be opened. *)
Definition noResponseLog : System :=
  mkSystem (fun _ => inr []) (fun _ => inr config) (fun _ => None)
           (fun name => if String.eqb name "logs/response.log"
                        then Some "permission denied" else None)
           (fun _ => None).

(** A configuration whose target does not parse. *)
Definition badTarget : Config := mkConfig "8080" "://example.com".

Definition badTargetSystem : System :=
  mkSystem (fun _ => inr []) (fun _ => inr badTarget) (fun _ => None) (fun _ => None)
           (fun _ => None).





(** A world whose client takes two more bytes and goes away. *)
Definition hangingUp : World :=
  mkWorld [] [] [] (ResponseWriter.connected (Some (2%nat, "write tcp: broken pipe"))) [].

End More.

(** * Properties *)

(** ** The model of the library on known values *)

(** The reference resolution examples of RFC 3986, section 5.4, on the
    path of the base [http://a/b/c/d;p?q]. *)
Lemma resolvePath_rfc3986 :
  List.map (url.resolvePath "/b/c/d;p")
    ["g"; "./g"; "g/"; "/g"; "../g"; "../../g"; "../../../g"; "."; "./"; "..";
     "../"; "../.."; "../../"; "g/../h"; "g;x=1/./y"; "/./g"; "/../g"; "g."; ".g";
     "./../g"; "./g/."; "g/./h"; ""]
  = ["/b/c/g"; "/b/c/g"; "/b/c/g/"; "/g"; "/b/g"; "/g"; "/g"; "/b/c/"; "/b/c/"; "/b/";
     "/b/"; "/"; "/"; "/b/c/h"; "/b/c/g;x=1/y"; "/g"; "/g"; "/b/c/g."; "/b/c/.g";
     "/b/g"; "/b/c/g/"; "/b/c/g/h"; "/b/c/d;p"].
Proof. reflexivity. Qed.

Lemma Parse_known :
  url.Parse "http://a/b/c/d;p?q#frag"
  = inr (url.mkURL "http" "" None "a" "/b/c/d;p" false false "q" "frag")
  /\ url.Parse "mailto:joe@example.com"
     = inr (url.mkURL "mailto" "joe@example.com" None "" "" false false "" "")
  /\ url.ParseRequestURI "//host/path"
     = inr (url.mkURL "" "" None "" "//host/path" false false "" "")
  /\ url.Parse "://example.com"
     = inl ("parse " +:+ GoStrings.Quote "://example.com" +:+ ": missing protocol scheme").
Proof. repeat split. Qed.

Lemma canon_known :
  List.map canon ["accept-encoding"; "uSER-aGENT"; "User-Agent"; "user agent"; "x-added-header"]
  = ["Accept-Encoding"; "User-Agent"; "User-Agent"; "user agent"; "X-Added-Header"].
Proof. reflexivity. Qed.

(** ** Canonical keys and the header methods *)

Lemma canon_User_Agent : canon "User-Agent" = "User-Agent".
Proof. reflexivity. Qed.

Lemma canon_X_Added_Header : canon "X-Added-Header" = "X-Added-Header".
Proof. reflexivity. Qed.

(** *** The scan of [CanonicalMIMEHeaderKey] and the rewriting loop *)

Lemma append_cons c (s t : string) : String c s +:+ t = String c (s +:+ t).
Proof. reflexivity. Qed.

Lemma append_nil_r (s : string) : s +:+ "" = s.
Proof. induction s as [|c s IH]; [done|]. by rewrite append_cons, IH. Qed.

Lemma append_snoc (s : string) c (t : string) :
  (s +:+ String c "") +:+ t = s +:+ String c t.
Proof. induction s as [|c' s IH]; [done|]. by rewrite !append_cons, IH. Qed.

Lemma list_ascii_append (s t : string) :
  list_ascii_of_string (s +:+ t) = list_ascii_of_string s ++ list_ascii_of_string t.
Proof. induction s as [|c s IH]; [done|]. rewrite append_cons. simpl. by rewrite IH. Qed.

(** The scan only saves the call: both functions return the same key. *)
Lemma scan_spec (s : string) :
  forall rest pre upper,
    s = pre +:+ rest ->
    allValid pre = true ->
    (forall t, textproto.canonicalize true (pre +:+ t)
               = pre +:+ textproto.canonicalize upper t) ->
    textproto.scan s upper rest = textproto.canonicalMIMEHeaderKey s.
Proof.
  induction rest as [|c rest IH]; intros pre upper Hs Hvalid Hpre; simpl.
  - unfold textproto.canonicalMIMEHeaderKey. rewrite append_nil_r in Hs. subst s.
    fold (allValid pre). rewrite Hvalid.
    specialize (Hpre ""). simpl in Hpre. rewrite !append_nil_r in Hpre. by rewrite Hpre.
  - destruct (textproto.validHeaderFieldByte c) eqn:Hc; simpl.
    + destruct (upper && Bytes.isLower c) eqn:Hup; [done|].
      destruct (negb upper && Bytes.isUpper c) eqn:Hlow; [done|].
      apply (IH (pre +:+ String c "")).
      * by rewrite append_snoc.
      * unfold allValid in *. rewrite list_ascii_append, forallb_app, Hvalid. simpl.
        by rewrite Hc.
      * intros t. rewrite append_snoc, Hpre. simpl.
        unfold textproto.canonByte. rewrite Hup, Hlow. by rewrite append_snoc.
    + unfold textproto.canonicalMIMEHeaderKey. subst s.
      rewrite list_ascii_append, forallb_app. simpl. rewrite Hc.
      by rewrite andb_false_r.
Qed.

Lemma canon_canonicalMIMEHeaderKey (s : string) :
  canon s = textproto.canonicalMIMEHeaderKey s.
Proof. unfold textproto.CanonicalMIMEHeaderKey. by apply (scan_spec s s ""). Qed.

(** *** Keys that differ in the case of their letters only *)

Lemma canonByte_lowerByte upper c :
  textproto.canonByte upper (Bytes.lowerByte c) = textproto.canonByte upper c.
Proof. destruct upper, c as [[] [] [] [] [] [] [] []]; reflexivity. Qed.

Lemma lowerByte_canonByte upper c :
  Bytes.lowerByte (textproto.canonByte upper c) = Bytes.lowerByte c.
Proof. destruct upper, c as [[] [] [] [] [] [] [] []]; reflexivity. Qed.

Lemma valid_lowerByte c :
  textproto.validHeaderFieldByte (Bytes.lowerByte c) = textproto.validHeaderFieldByte c.
Proof. destruct c as [[] [] [] [] [] [] [] []]; reflexivity. Qed.

Lemma canonicalize_ToLower upper (s : string) :
  textproto.canonicalize upper (Bytes.ToLower s) = textproto.canonicalize upper s.
Proof.
  revert upper. induction s as [|c s IH]; intros upper; simpl; [done|].
  by rewrite canonByte_lowerByte, IH.
Qed.

Lemma ToLower_canonicalize upper (s : string) :
  Bytes.ToLower (textproto.canonicalize upper s) = Bytes.ToLower s.
Proof.
  revert upper. induction s as [|c s IH]; intros upper; simpl; [done|].
  by rewrite lowerByte_canonByte, IH.
Qed.

Lemma allValid_ToLower (s : string) : allValid (Bytes.ToLower s) = allValid s.
Proof.
  unfold allValid. induction s as [|c s IH]; simpl; [done|].
  by rewrite valid_lowerByte, IH.
Qed.

(** A canonical key keeps the letters of the key, up to their case. *)
Lemma ToLower_canon (k : string) : Bytes.ToLower (canon k) = Bytes.ToLower k.
Proof.
  rewrite canon_canonicalMIMEHeaderKey. unfold textproto.canonicalMIMEHeaderKey.
  destruct (forallb _ _); [apply ToLower_canonicalize|done].
Qed.

(** Two keys with the same letters up to case, made of token bytes,
    have the same canonical form. *)
Lemma canon_fold (k name : string) :
  allValid name = true ->
  Bytes.ToLower k = Bytes.ToLower name -> canon k = canon name.
Proof.
  intros Hvalid Hfold. rewrite !canon_canonicalMIMEHeaderKey.
  unfold textproto.canonicalMIMEHeaderKey. fold (allValid k) (allValid name).
  rewrite <- (allValid_ToLower k), Hfold, allValid_ToLower, Hvalid.
  by rewrite <- (canonicalize_ToLower true k), Hfold, canonicalize_ToLower.
Qed.

(** So a canonical key that reads as [name] up to case is the canonical
    form of [name]. *)
Lemma canon_unique (k name : string) :
  allValid name = true ->
  Bytes.ToLower (canon k) = Bytes.ToLower name -> canon k = canon name.
Proof.
  intros Hvalid Hfold. rewrite ToLower_canon in Hfold. by apply canon_fold.
Qed.

Lemma Set_lookup key value (h : Header.t) :
  Header.Set_ key value h !! canon key = Some [value].
Proof. unfold Header.Set_. apply lookup_insert_eq. Qed.

Lemma Set_lookup_ne key value (h : Header.t) k :
  canon key <> k -> Header.Set_ key value h !! k = h !! k.
Proof. intros Hne. unfold Header.Set_. by apply lookup_insert_ne. Qed.

Lemma Add_lookup key value (h : Header.t) :
  Header.Add key value h !! canon key = Some (default [] (h !! canon key) ++ [value]).
Proof. unfold Header.Add. apply lookup_insert_eq. Qed.

Lemma Add_lookup_ne key value (h : Header.t) k :
  canon key <> k -> Header.Add key value h !! k = h !! k.
Proof. intros Hne. unfold Header.Add. by apply lookup_insert_ne. Qed.

(** Adding the values of one name, one after the other. *)
Lemma fold_Add key (vs : list string) (h : Header.t) :
  vs <> [] ->
  fold_left (fun h v => Header.Add key v h) vs h
  = <[canon key := default [] (h !! canon key) ++ vs]> h.
Proof.
  revert h. induction vs as [|v vs IH]; intros h Hvs; [done|].
  simpl. destruct vs as [|v' vs].
  - reflexivity.
  - rewrite IH by done. rewrite Add_lookup. simpl.
    unfold Header.Add. rewrite insert_insert_eq.
    by rewrite <- app_assoc.
Qed.

(** ** The loops that copy the headers *)

Lemma copyEntry_other name (vs : list string) (h : Header.t) :
  name <> "User-Agent" ->
  copyEntry h (name, vs) = fold_left (fun h v => Header.Add name v h) vs h.
Proof.
  intros Hne. unfold copyEntry. simpl.
  assert (Heq : copyValue name = fun h v => Header.Add name v h).
  { unfold copyValue. apply String.eqb_neq in Hne. by rewrite Hne. }
  by rewrite Heq.
Qed.

Lemma copyEntry_User_Agent (vs : list string) (h : Header.t) :
  copyEntry h ("User-Agent", vs)
  = match vs with
    | [] => h
    | _ :: _ => <["User-Agent" := ["MyCustomUserAgent"]]> h
    end.
Proof.
  unfold copyEntry. simpl. revert h.
  induction vs as [|v vs IH]; intros h; [done|].
  simpl. rewrite IH. unfold copyValue at 2. simpl.
  unfold Header.Set_. rewrite canon_User_Agent.
  destruct vs; [done|]. by rewrite insert_insert_eq.
Qed.

(** An entry only touches the key its name canonicalises to. *)
Lemma copyEntry_frame (e : string * list string) (h : Header.t) k :
  canon e.1 <> k \/ e.2 = [] -> copyEntry h e !! k = h !! k.
Proof.
  destruct e as [name vs]. simpl. intros [Hne | ->]; [|done].
  destruct (decide (name = "User-Agent")) as [->|Hua].
  - rewrite copyEntry_User_Agent. destruct vs; [done|].
    rewrite canon_User_Agent in Hne. by rewrite lookup_insert_ne.
  - rewrite copyEntry_other by done. destruct vs as [|v vs]; [done|].
    rewrite fold_Add by done. by rewrite lookup_insert_ne.
Qed.

Lemma copyHeaders_frame (entries : Header.entries) (h : Header.t) k :
  Forall (fun e => canon e.1 <> k \/ e.2 = []) entries ->
  copyHeaders entries h !! k = h !! k.
Proof.
  revert h. induction entries as [|e entries IH]; intros h Hall; [done|].
  apply Forall_cons in Hall as [He Hall]. unfold copyHeaders in *. simpl.
  rewrite IH by done. by apply copyEntry_frame.
Qed.

Lemma copyHeaders_app (l1 l2 : Header.entries) (h : Header.t) :
  copyHeaders (l1 ++ l2) h = copyHeaders l2 (copyHeaders l1 h).
Proof. unfold copyHeaders. apply fold_left_app. Qed.

(** ** Entries of a map in [range] order *)

Section Entries.
Context (range : Site -> Header.t -> Header.entries) (Hrange : enumerates range).

Lemma range_elem site (h : Header.t) k vs :
  (k, vs) ∈ range site h <-> h !! k = Some vs.
Proof. rewrite (Hrange site h). apply elem_of_map_to_list. Qed.

Lemma range_NoDup site (h : Header.t) : NoDup (range site h).*1.
Proof. rewrite (Hrange site h). apply NoDup_fst_map_to_list. Qed.

(** Around one entry of the map, no other entry has its key. *)
Lemma range_split site (h : Header.t) k vs :
  h !! k = Some vs ->
  exists l1 l2, range site h = l1 ++ (k, vs) :: l2
                /\ Forall (fun e => e.1 <> k /\ h !! e.1 = Some e.2) (l1 ++ l2).
Proof.
  intros Hk. apply (range_elem site) in Hk as Hin.
  apply list_elem_of_split in Hin as (l1 & l2 & Heq).
  exists l1, l2. split; [done|].
  pose proof (range_NoDup site h) as Hnd. rewrite Heq in Hnd.
  rewrite fmap_app, fmap_cons in Hnd. simpl in Hnd.
  apply NoDup_app in Hnd as (_ & Hdisj & Hnd).
  apply NoDup_cons in Hnd as [Hnotin _].
  apply Forall_forall. intros [k' vs'] Hin. simpl.
  split.
  - intros ->. apply elem_of_app in Hin as [Hin|Hin].
    + apply (Hdisj k); [by apply (list_elem_of_fmap_2 fst _ (k, vs'))|]. left.
    + apply Hnotin. by apply (list_elem_of_fmap_2 fst _ (k, vs')).
  - apply (range_elem site). rewrite Heq.
    apply elem_of_app in Hin as [Hin|Hin]; apply elem_of_app; [by left|].
    right. by right.
Qed.

End Entries.

(** ** Running the logging steps *)

Lemma appendLog_nil logger s : appendLog logger [] s = s.
Proof. destruct s, logger; unfold appendLog; simpl; by rewrite app_nil_r. Qed.

Lemma appendLog_app logger l1 l2 s :
  appendLog logger l2 (appendLog logger l1 s) = appendLog logger (l1 ++ l2) s.
Proof. destruct s, logger; unfold appendLog; simpl; by rewrite app_assoc. Qed.

Lemma Printf_run logger line s : Printf logger line s = (tt, appendLog logger [line] s).
Proof. by destruct logger. Qed.

Lemma forEach_Printf {A} logger (f : A -> string) (l : list A) s :
  forEach l (fun x => Printf logger (f x)) s = (tt, appendLog logger (List.map f l) s).
Proof.
  revert s. induction l as [|x l IH]; intros s; simpl.
  - by rewrite appendLog_nil.
  - unfold bind. rewrite Printf_run, IH. by rewrite appendLog_app.
Qed.

Lemma forEach_headerLines logger prefix (entries : Header.entries) s :
  forEach entries (fun '(name, values) =>
    forEach values (fun value => Printf logger (prefix +:+ name +:+ ": " +:+ value))) s
  = (tt, appendLog logger (headerLines prefix entries) s).
Proof.
  revert s. induction entries as [|[name values] entries IH]; intros s; simpl.
  - by rewrite appendLog_nil.
  - unfold bind at 1. rewrite forEach_Printf, IH. by rewrite appendLog_app.
Qed.

Lemma headerLines_length prefix entries :
  List.length (headerLines prefix entries) = pairCount entries.
Proof.
  unfold headerLines, pairCount. induction entries as [|e entries IH]; [done|].
  simpl. by rewrite length_app, length_map, IH.
Qed.

Lemma headerLines_Permutation prefix l1 l2 :
  l1 ≡ₚ l2 -> headerLines prefix l1 ≡ₚ headerLines prefix l2.
Proof.
  unfold headerLines. induction 1; simpl.
  - done.
  - by apply Permutation_app_head.
  - rewrite !app_assoc. apply Permutation_app_tail, Permutation_app_comm.
  - etrans; eauto.
Qed.

Section Logging.
Context (range : Site -> Header.t -> Header.entries).

Lemma logRequest_ok r logger s :
  io.fault (Request.Body r) = None ->
  logRequest range r logger s
  = (Request.set_Body (io.NopCloser_NewBuffer (io.pending (Request.Body r))) r,
     appendLog logger
       (requestHead range r
        ++ ["Request Body: " +:+ string_of_list_byte (io.pending (Request.Body r))]) s).
Proof.
  intros Hok. unfold logRequest, io.ReadAll. rewrite Hok.
  unfold bind. rewrite Printf_run, forEach_headerLines, Printf_run.
  unfold ret, requestHead. by rewrite !appendLog_app.
Qed.

Lemma logRequest_fail r logger s err :
  io.fault (Request.Body r) = Some err ->
  logRequest range r logger s
  = (Request.set_Body (io.mkReader [] (Some err)) r,
     appendLog logger (requestHead range r ++ ["Failed to read request body: " +:+ err]) s).
Proof.
  intros Hok. unfold logRequest, io.ReadAll. rewrite Hok.
  unfold bind. rewrite Printf_run, forEach_headerLines, Printf_run.
  unfold ret, requestHead. by rewrite !appendLog_app.
Qed.

Lemma logResponse_ok resp logger s :
  io.fault (Response.Body resp) = None ->
  logResponse range resp logger s
  = (Response.set_Body (io.NopCloser_NewBuffer (io.pending (Response.Body resp))) resp,
     appendLog logger
       (responseHead range resp
        ++ ["Response Body: " +:+ string_of_list_byte (io.pending (Response.Body resp))]) s).
Proof.
  intros Hok. unfold logResponse, io.ReadAll. rewrite Hok.
  unfold bind. rewrite Printf_run, forEach_headerLines, Printf_run.
  unfold ret, responseHead. by rewrite !appendLog_app.
Qed.

Lemma logResponse_fail resp logger s err :
  io.fault (Response.Body resp) = Some err ->
  logResponse range resp logger s
  = (Response.set_Body (io.mkReader [] (Some err)) resp,
     appendLog logger (responseHead range resp ++ ["Failed to read response body: " +:+ err]) s).
Proof.
  intros Hok. unfold logResponse, io.ReadAll. rewrite Hok.
  unfold bind. rewrite Printf_run, forEach_headerLines, Printf_run.
  unfold ret, responseHead. by rewrite !appendLog_app.
Qed.

(** [logRequest] changes nothing of the request but its body, and
    nothing of the world but the log it writes to. *)
Lemma logRequest_fields r logger s :
  let r' := (logRequest range r logger s).1 in
  Request.Method r' = Request.Method r /\ Request.URL r' = Request.URL r
  /\ Request.Header r' = Request.Header r.
Proof.
  destruct (io.fault (Request.Body r)) as [err|] eqn:Hf.
  - by rewrite (logRequest_fail _ _ _ _ Hf).
  - by rewrite (logRequest_ok _ _ _ Hf).
Qed.

Lemma logRequest_world r s :
  let s' := (logRequest range r requestLogger s).2 in
  responseLog s' = responseLog s /\ errorLog s' = errorLog s
  /\ w s' = w s /\ upstream s' = upstream s.
Proof.
  destruct (io.fault (Request.Body r)) as [err|] eqn:Hf.
  - by rewrite (logRequest_fail _ _ _ _ Hf).
  - by rewrite (logRequest_ok _ _ _ Hf).
Qed.

Lemma logResponse_world resp s :
  let s' := (logResponse range resp responseLogger s).2 in
  requestLog s' = requestLog s /\ errorLog s' = errorLog s
  /\ w s' = w s /\ upstream s' = upstream s.
Proof.
  destruct (io.fault (Response.Body resp)) as [err|] eqn:Hf.
  - by rewrite (logResponse_fail _ _ _ _ Hf).
  - by rewrite (logResponse_ok _ _ _ Hf).
Qed.

End Logging.

(** ** Running the handler *)

Lemma onWriter_run f s : onWriter f s = (tt, withWriter f s).
Proof. reflexivity. Qed.

Lemma withWriter_withWriter f g s :
  withWriter g (withWriter f s) = withWriter (fun w => g (f w)) s.
Proof. reflexivity. Qed.

Lemma forEach_Add key (values : list string) s :
  forEach values (fun v =>
    onWriter (fun w =>
      ResponseWriter.set_header (Header.Add key v (ResponseWriter.header w)) w)) s
  = (tt, withWriter (fun w =>
      ResponseWriter.set_header
        (fold_left (fun h v => Header.Add key v h) values (ResponseWriter.header w)) w) s).
Proof.
  revert s. induction values as [|v values IH]; intros s; simpl.
  - unfold ret. by destruct s as [? ? ? [] ?].
  - unfold bind. rewrite onWriter_run, IH. by destruct s as [? ? ? [] ?].
Qed.

Lemma forEach_forward (entries : Header.entries) s :
  forEach entries (fun '(key, value) =>
    forEach value (fun v =>
      onWriter (fun w =>
        ResponseWriter.set_header (Header.Add key v (ResponseWriter.header w)) w))) s
  = (tt, withWriter (fun w =>
      ResponseWriter.set_header (forwardHeaders entries (ResponseWriter.header w)) w) s).
Proof.
  revert s. induction entries as [|[key value] entries IH]; intros s; simpl.
  - unfold ret. by destruct s as [? ? ? [] ?].
  - unfold bind at 1. rewrite forEach_Add, IH. by destruct s as [? ? ? [] ?].
Qed.

(** ** The response writer *)

(** A status code that is written as such, on a writer without status:
    the call returns, with the status and the declared length set. *)
Lemma WriteHeader_final code (w0 : ResponseWriter.t) :
  ResponseWriter.status w0 = None ->
  ResponseWriter.finalStatus code = true ->
  ResponseWriter.panics code w0 = false
  /\ ResponseWriter.WriteHeader code w0
     = ResponseWriter.mk (ResponseWriter.checkedLength (ResponseWriter.header w0))
         (Some code) (ResponseWriter.body w0)
         (ResponseWriter.interim w0)
         (ResponseWriter.declaredLength
            (Header.get "Content-Length" (ResponseWriter.header w0)))
         (ResponseWriter.written w0) (ResponseWriter.room w0).
Proof.
  intros Hs Hfinal. unfold ResponseWriter.finalStatus in Hfinal.
  apply andb_true_iff in Hfinal as [Hcheck Hinf]. apply negb_true_iff in Hinf.
  unfold ResponseWriter.panics, ResponseWriter.WriteHeader.
  by rewrite Hs, Hcheck, Hinf.
Qed.


(** Writing the status keeps the header map, or takes from it a
    Content-Length that declares no length. *)
Lemma checkedLength_cases (h : Header.t) :
  ResponseWriter.checkedLength h = h
  \/ ResponseWriter.checkedLength h = Header.Del "Content-Length" h.
Proof.
  unfold ResponseWriter.checkedLength.
  destruct (ResponseWriter.declaredLength _); [by left|].
  destruct (String.eqb _ _); [by left|by right].
Qed.

Lemma WriteHeader_header code (w0 : ResponseWriter.t) :
  ResponseWriter.header (ResponseWriter.WriteHeader code w0) = ResponseWriter.header w0
  \/ ResponseWriter.header (ResponseWriter.WriteHeader code w0)
     = Header.Del "Content-Length" (ResponseWriter.header w0).
Proof.
  unfold ResponseWriter.WriteHeader.
  destruct (ResponseWriter.status w0); [by left|].
  destruct (negb _); [by left|].
  destruct (ResponseWriter.informational code); [by left|].
  apply checkedLength_cases.
Qed.

(** [Write] changes the header map and the status as the writing of the
    status 200 does. *)
Lemma Write_header_status (p : list byte) (w0 : ResponseWriter.t) :
  ResponseWriter.header (ResponseWriter.Write p w0)
  = ResponseWriter.header (ResponseWriter.WriteHeader 200 w0)
  /\ ResponseWriter.status (ResponseWriter.Write p w0)
     = ResponseWriter.status (ResponseWriter.WriteHeader 200 w0).
Proof.
  unfold ResponseWriter.Write, ResponseWriter.write.
  set (w1 := ResponseWriter.WriteHeader 200 w0).
  destruct p as [|b p]; [done|].
  destruct (negb _); [done|].
  cbn [ResponseWriter.contentLength ResponseWriter.room].
  destruct (ResponseWriter.contentLength w1) as [declared|];
    [destruct (declared <? _); [done|]|];
    (destruct (ResponseWriter.room w1) as [[n e]|]; [|done]);
    by destruct (_ <=? n)%nat.
Qed.

(** A second status is not written. *)
Lemma WriteHeader_written code (w0 : ResponseWriter.t) st :
  ResponseWriter.status w0 = Some st -> ResponseWriter.WriteHeader code w0 = w0.
Proof. intros Hs. unfold ResponseWriter.WriteHeader. by rewrite Hs. Qed.

(** [http.Error] with the code 500 on a new writer: the status is 500,
    whatever the connection does with the message. *)
Lemma Error_status msg room :
  ResponseWriter.status (ResponseWriter.Error msg 500 (ResponseWriter.connected room))
  = Some 500.
Proof.
  unfold ResponseWriter.Error. cbv zeta.
  set (w0 := ResponseWriter.set_header _ _).
  destruct (WriteHeader_final 500 w0 eq_refl eq_refl) as [-> Hw].
  destruct (Write_header_status
              (list_byte_of_string (msg +:+ String (ascii_of_N 10) EmptyString))
              (ResponseWriter.WriteHeader 500 w0)) as [_ ->].
  rewrite Hw. reflexivity.
Qed.

(** Without a Content-Length the header map stays as it is. *)
Lemma WriteHeader_header_kept code (w0 : ResponseWriter.t) :
  Header.get "Content-Length" (ResponseWriter.header w0) = EmptyString ->
  ResponseWriter.header (ResponseWriter.WriteHeader code w0) = ResponseWriter.header w0.
Proof.
  intros Hcl. unfold ResponseWriter.WriteHeader.
  destruct (ResponseWriter.status w0); [done|].
  destruct (negb _); [done|].
  destruct (ResponseWriter.informational code); [done|].
  cbn [ResponseWriter.header]. unfold ResponseWriter.checkedLength. by rewrite Hcl.
Qed.

Lemma Error_headers_get (h : Header.t) :
  Header.get "Content-Length"
    (Header.Set_ "X-Content-Type-Options" "nosniff"
       (Header.Set_ "Content-Type" "text/plain; charset=utf-8"
          (Header.Del "Content-Length" h)))
  = EmptyString.
Proof.
  unfold Header.get, Header.Set_, Header.Del.
  change (textproto.CanonicalMIMEHeaderKey "X-Content-Type-Options")
    with "X-Content-Type-Options".
  change (textproto.CanonicalMIMEHeaderKey "Content-Type") with "Content-Type".
  change (textproto.CanonicalMIMEHeaderKey "Content-Length") with "Content-Length".
  rewrite !lookup_insert_ne by discriminate. by rewrite lookup_delete_eq.
Qed.

Lemma Error_header msg code (w0 : ResponseWriter.t) :
  ResponseWriter.header (ResponseWriter.Error msg code w0)
  = Header.Set_ "X-Content-Type-Options" "nosniff"
      (Header.Set_ "Content-Type" "text/plain; charset=utf-8"
         (Header.Del "Content-Length" (ResponseWriter.header w0))).
Proof.
  unfold ResponseWriter.Error. cbv zeta.
  set (w3 := ResponseWriter.set_header (Header.Set_ "X-Content-Type-Options" _ _) _).
  assert (Hcl : Header.get "Content-Length" (ResponseWriter.header w3) = EmptyString)
    by apply Error_headers_get.
  destruct (ResponseWriter.panics code w3); [done|].
  destruct (Write_header_status
              (list_byte_of_string (msg +:+ String (ascii_of_N 10) EmptyString))
              (ResponseWriter.WriteHeader code w3)) as [-> _].
  rewrite (WriteHeader_header_kept 200); rewrite (WriteHeader_header_kept code); done.
Qed.

(** ** Forwarding a response *)

Lemma Del_Del (key : string) (h : Header.t) :
  Header.Del key (Header.Del key h) = Header.Del key h.
Proof. unfold Header.Del. apply delete_delete_eq. Qed.

(** The header map after forwarding is the one before with the entries
    of the response added, less a Content-Length that declares no
    length, whatever becomes of the status and the body. *)
Lemma relay_header entries resp s :
  ResponseWriter.header (w (relay entries resp s))
  = forwardHeaders entries (ResponseWriter.header (w s))
  \/ ResponseWriter.header (w (relay entries resp s))
     = Header.Del "Content-Length" (forwardHeaders entries (ResponseWriter.header (w s))).
Proof.
  unfold relay. cbv zeta.
  destruct (ResponseWriter.panics _ _); [by left|].
  set (s1 := withWriter _ s).
  set (s2 := withWriter (ResponseWriter.WriteHeader (Response.StatusCode resp)) s1).
  set (h := forwardHeaders entries (ResponseWriter.header (w s))).
  assert (H2 : ResponseWriter.header (w s2) = h
               \/ ResponseWriter.header (w s2) = Header.Del "Content-Length" h)
    by apply WriteHeader_header.
  assert (H3 : ResponseWriter.header
                 (w match io.pending (Response.Body resp) with
                    | [] => s2
                    | b :: p => withWriter (ResponseWriter.Write (b :: p)) s2
                    end) = h
               \/ ResponseWriter.header
                    (w match io.pending (Response.Body resp) with
                       | [] => s2
                       | b :: p => withWriter (ResponseWriter.Write (b :: p)) s2
                       end) = Header.Del "Content-Length" h).
  { destruct (io.pending (Response.Body resp)) as [|b p]; [done|].
    cbn [withWriter w].
    destruct (Write_header_status (b :: p) (w s2)) as [-> _].
    destruct (WriteHeader_header 200 (w s2)) as [->| ->]; [done|].
    destruct H2 as [->| ->]; [by right|]. right. apply Del_Del. }
  destruct (copyError _ _); cbn [appendLog w]; exact H3.
Qed.


(** A status written as such is the status after forwarding. *)
Lemma relay_status entries resp s :
  ResponseWriter.status (w s) = None ->
  ResponseWriter.finalStatus (Response.StatusCode resp) = true ->
  ResponseWriter.status (w (relay entries resp s)) = Some (Response.StatusCode resp).
Proof.
  intros Hs Hfinal. unfold relay. cbv zeta. cbn [withWriter w].
  set (w0 := ResponseWriter.set_header _ _).
  destruct (WriteHeader_final (Response.StatusCode resp) w0 Hs Hfinal) as [-> Hw].
  assert (Hst : forall s0,
            ResponseWriter.status (w s0) = Some (Response.StatusCode resp) ->
            ResponseWriter.status
              (w match io.pending (Response.Body resp) with
                 | [] => s0
                 | b :: p => withWriter (ResponseWriter.Write (b :: p)) s0
                 end) = Some (Response.StatusCode resp)).
  { intros s0 H0. destruct (io.pending (Response.Body resp)) as [|b p]; [done|].
    cbn [withWriter w].
    destruct (Write_header_status (b :: p) (w s0)) as [_ ->].
    by rewrite (WriteHeader_written _ _ _ H0). }
  destruct (copyError _ _); cbn [appendLog w]; apply Hst; cbn [withWriter w];
    subst w0; by rewrite Hw.
Qed.



(** Forwarding a response touches the writer and the error log only,
    and the error log by one line at most. *)
Lemma relay_frame entries resp s :
  requestLog (relay entries resp s) = requestLog s
  /\ responseLog (relay entries resp s) = responseLog s
  /\ upstream (relay entries resp s) = upstream s
  /\ (errorLog (relay entries resp s) = errorLog s
      \/ exists err,
           errorLog (relay entries resp s)
           = errorLog s ++ ["Failed to copy response body: " +:+ err]).
Proof.
  unfold relay. cbv zeta.
  destruct (ResponseWriter.panics _ _); [by repeat split; try left|].
  destruct (copyError _ _) as [err|];
    destruct (io.pending (Response.Body resp)); simpl;
    repeat split; try (by left); right; by exists err.
Qed.

Lemma relay_upstream entries resp s : upstream (relay entries resp s) = upstream s.
Proof. apply relay_frame. Qed.

Lemma relay_requestLog entries resp s : requestLog (relay entries resp s) = requestLog s.
Proof. apply relay_frame. Qed.

Lemma relay_responseLog entries resp s : responseLog (relay entries resp s) = responseLog s.
Proof. apply relay_frame. Qed.

Section Handler.
Context (url_Parse : string -> error + url.URL)
        (client_Do : Request.t -> error + Response.t)
        (range : Site -> Header.t -> Header.entries).

Local Abbreviation handler := (redirectHandler url_Parse client_Do range).
Local Abbreviation logged r s := (logRequest range r requestLogger s).

Lemma handler_parse_error r targetServer s err :
  url_Parse targetServer = inl err ->
  handler r targetServer s
  = (tt, appendLog errorLogger ["Invalid target server URL: " +:+ err]
           (withWriter (ResponseWriter.Error "Invalid target server URL" 500)
                       (logged r s).2)).
Proof.
  intros Hp. unfold redirectHandler, bind at 1.
  destruct (logged r s) as [r' s1]. rewrite Hp.
  unfold bind, http_Error. by rewrite onWriter_run, Printf_run.
Qed.

Lemma handler_request_error r targetServer s target err :
  url_Parse targetServer = inr target ->
  http_NewRequest url_Parse (Request.Method (logged r s).1)
    (url.URL_String (url.ResolveReference target (Request.URL (logged r s).1)))
    (Request.Body (logged r s).1) = inl err ->
  handler r targetServer s
  = (tt, appendLog errorLogger ["Failed to create request: " +:+ err]
           (withWriter (ResponseWriter.Error "Failed to create request" 500)
                       (logged r s).2)).
Proof.
  intros Hp Hn. unfold redirectHandler, bind at 1.
  destruct (logged r s) as [r' s1]. simpl in *. rewrite Hp, Hn.
  unfold bind, http_Error. by rewrite onWriter_run, Printf_run.
Qed.

Lemma handler_connect_error r targetServer s target proxyReq err :
  url_Parse targetServer = inr target ->
  http_NewRequest url_Parse (Request.Method (logged r s).1)
    (url.URL_String (url.ResolveReference target (Request.URL (logged r s).1)))
    (Request.Body (logged r s).1) = inr proxyReq ->
  client_Do (transformHeaders range (logged r s).1 proxyReq) = inl err ->
  handler r targetServer s
  = (tt, appendLog errorLogger ["Failed to connect to server: " +:+ err]
           (withWriter (ResponseWriter.Error "Failed to connect to server" 500)
              (withAttempt (transformHeaders range (logged r s).1 proxyReq)
                           (logged r s).2))).
Proof.
  intros Hp Hn Hd. unfold redirectHandler, bind at 1.
  destruct (logged r s) as [r' s1]. simpl in *. rewrite Hp, Hn.
  unfold bind at 1, Do. rewrite Hd.
  unfold bind, http_Error. by rewrite onWriter_run, Printf_run.
Qed.

Lemma handler_success r targetServer s target proxyReq resp :
  url_Parse targetServer = inr target ->
  http_NewRequest url_Parse (Request.Method (logged r s).1)
    (url.URL_String (url.ResolveReference target (Request.URL (logged r s).1)))
    (Request.Body (logged r s).1) = inr proxyReq ->
  client_Do (transformHeaders range (logged r s).1 proxyReq) = inr resp ->
  handler r targetServer s
  = (tt,
     let '(resp', s2) :=
       logResponse range resp responseLogger
         (withAttempt (transformHeaders range (logged r s).1 proxyReq) (logged r s).2) in
     relay (range ForwardHeaders (Response.Header resp')) resp' s2).
Proof.
  intros Hp Hn Hd. unfold redirectHandler, bind at 1.
  destruct (logged r s) as [r' s1]. simpl in *. rewrite Hp, Hn.
  unfold bind at 1, Do. rewrite Hd.
  unfold bind at 1.
  destruct (logResponse range resp responseLogger _) as [resp' s2].
  unfold bind at 1. rewrite forEach_forward.
  unfold bind at 1, w_WriteHeader, relay. cbv zeta.
  destruct (ResponseWriter.panics _ _); [done|].
  unfold bind at 1, io_Copy, copyError.
  destruct (io.pending (Response.Body resp')) as [|b p].
  - unfold ret at 1.
    destruct (io.fault (Response.Body resp')); [by rewrite Printf_run|done].
  - unfold bind at 1, w_Write. cbn [w withWriter].
    destruct (ResponseWriter.WriteError _ _); unfold ret at 1.
    + by rewrite Printf_run.
    + destruct (io.fault (Response.Body resp')); [by rewrite Printf_run|done].
Qed.

(** Once [proxyReq] is built it is handed to [client.Do], once. *)
Lemma handler_upstream_sent r targetServer s target proxyReq :
  url_Parse targetServer = inr target ->
  http_NewRequest url_Parse (Request.Method (logged r s).1)
    (url.URL_String (url.ResolveReference target (Request.URL (logged r s).1)))
    (Request.Body (logged r s).1) = inr proxyReq ->
  upstream (handler r targetServer s).2
  = upstream s ++ [transformHeaders range (logged r s).1 proxyReq].
Proof.
  intros Hp Hn.
  pose proof (logRequest_world range r s) as (_ & _ & _ & Hup). simpl in Hup.
  destruct (client_Do (transformHeaders range (logged r s).1 proxyReq)) as [err|resp] eqn:Hd.
  - rewrite (handler_connect_error _ _ _ _ _ _ Hp Hn Hd). simpl. by rewrite Hup.
  - rewrite (handler_success _ _ _ _ _ _ Hp Hn Hd). simpl.
    match goal with
    | |- context [logResponse range resp responseLogger ?s0] =>
        pose proof (logResponse_world range resp s0) as (_ & _ & _ & Hup');
        destruct (logResponse range resp responseLogger s0) as [resp' s2]
    end.
    simpl in Hup'. rewrite relay_upstream, Hup'. simpl. by rewrite Hup.
Qed.

(** Every request of a run that reaches [client.Do] is a [proxyReq]
    with its headers transformed, and there is at most one. *)
Lemma handler_sent r targetServer s :
  sent s (handler r targetServer s).2 = []
  \/ exists target proxyReq,
       url_Parse targetServer = inr target
       /\ http_NewRequest url_Parse (Request.Method (logged r s).1)
            (url.URL_String (url.ResolveReference target (Request.URL (logged r s).1)))
            (Request.Body (logged r s).1) = inr proxyReq
       /\ sent s (handler r targetServer s).2
          = [transformHeaders range (logged r s).1 proxyReq].
Proof.
  unfold sent.
  pose proof (logRequest_world range r s) as (_ & _ & _ & Hup). simpl in Hup.
  destruct (url_Parse targetServer) as [err|target] eqn:Hp.
  { left. rewrite (handler_parse_error _ _ _ _ Hp). simpl. rewrite Hup.
    by rewrite drop_all. }
  destruct (http_NewRequest url_Parse (Request.Method (logged r s).1)
    (url.URL_String (url.ResolveReference target (Request.URL (logged r s).1)))
    (Request.Body (logged r s).1)) as [err|proxyReq] eqn:Hn.
  { left. rewrite (handler_request_error _ _ _ _ _ Hp Hn). simpl. rewrite Hup.
    by rewrite drop_all. }
  right. exists target, proxyReq. split; [done|]. split; [done|].
  rewrite (handler_upstream_sent _ _ _ _ _ Hp Hn).
  by rewrite drop_app_length.
Qed.

(** [http.NewRequest] starts from an empty header and keeps the body
    it is given. *)
Lemma NewRequest_fields method url_ body proxyReq :
  http_NewRequest url_Parse method url_ body = inr proxyReq ->
  Request.Header proxyReq = ∅ /\ Request.Body proxyReq = body
  /\ exists u, url_Parse url_ = inr u
               /\ Request.URL proxyReq = set_Host (removeEmptyPort (url.Host u)) u.
Proof.
  unfold http_NewRequest. destruct (negb _); [done|].
  destruct (url_Parse url_) as [err|u]; [done|].
  intros [= <-]. simpl. eauto.
Qed.

End Handler.

Lemma transformHeaders_Header range r proxyReq :
  Request.Header (transformHeaders range r proxyReq)
  = Header.Set_ "X-Added-Header" "HeaderValue"
      (copyHeaders (range CopyHeaders (Request.Header r)) (Request.Header proxyReq)).
Proof. reflexivity. Qed.

Lemma transformHeaders_ext range r1 r2 proxyReq :
  Request.Header r1 = Request.Header r2 ->
  transformHeaders range r1 proxyReq = transformHeaders range r2 proxyReq.
Proof. intros Heq. unfold transformHeaders. by rewrite Heq. Qed.

Lemma transformHeaders_Body range r proxyReq :
  Request.Body (transformHeaders range r proxyReq) = Request.Body proxyReq.
Proof. reflexivity. Qed.


(** ** The keys of the outbound header *)

Lemma canonKeys_insert key (vs : list string) (h : Header.t) :
  canonKeys h -> canonKeys (<[canon key := vs]> h).
Proof.
  intros Hh k Hk. destruct (decide (canon key = k)) as [<-|Hne]; [by eexists|].
  rewrite lookup_insert_ne in Hk by done. by apply Hh.
Qed.

Lemma canonKeys_copyValue name value (h : Header.t) :
  canonKeys h -> canonKeys (copyValue name h value).
Proof.
  unfold copyValue, Header.Set_, Header.Add.
  destruct (String.eqb _ _); apply canonKeys_insert.
Qed.

Lemma canonKeys_copyEntry (e : string * list string) (h : Header.t) :
  canonKeys h -> canonKeys (copyEntry h e).
Proof.
  destruct e as [name vs]. unfold copyEntry. simpl. revert h.
  induction vs as [|v vs IH]; intros h Hh; [done|].
  simpl. by apply IH, canonKeys_copyValue.
Qed.

Lemma canonKeys_copyHeaders (entries : Header.entries) (h : Header.t) :
  canonKeys h -> canonKeys (copyHeaders entries h).
Proof.
  unfold copyHeaders. revert h.
  induction entries as [|e entries IH]; intros h Hh; [done|].
  simpl. by apply IH, canonKeys_copyEntry.
Qed.

Lemma canonKeys_transformHeaders range r proxyReq :
  canonKeys (Request.Header proxyReq) ->
  canonKeys (Request.Header (transformHeaders range r proxyReq)).
Proof.
  intros Hh. rewrite transformHeaders_Header.
  by apply canonKeys_insert, canonKeys_copyHeaders.
Qed.

(** Among canonical keys a name has one spelling. *)
Lemma canonKeys_oneSpelling name (h : Header.t) :
  allValid name = true -> canon name = name -> canonKeys h -> oneSpelling name h.
Proof.
  intros Hvalid Hname Hh k Hk Hfold. destruct (Hh k Hk) as [k0 ->].
  rewrite <- Hname. by apply canon_unique.
Qed.

(** The requests of a run have canonical keys only. *)
Lemma sent_canonKeys url_Parse client_Do range r targetServer s :
  Forall (fun p => canonKeys (Request.Header p))
         (sent s (redirectHandler url_Parse client_Do range r targetServer s).2).
Proof.
  destruct (handler_sent url_Parse client_Do range r targetServer s)
    as [->|(target & p & _ & Hnew & ->)]; [constructor|].
  apply NewRequest_fields in Hnew as (Hempty & _).
  repeat constructor. apply canonKeys_transformHeaders. rewrite Hempty.
  intros k Hk. rewrite lookup_empty in Hk. by destruct Hk.
Qed.

(** ** The header transformation *)

(** The values copied for one key end up under its canonical form when
    no other key shares that form. *)
Lemma copyHeaders_entry range (Hrange : enumerates range) (h h0 : Header.t) name values :
  h !! name = Some values -> values <> [] -> soleKey name h ->
  copyHeaders (range CopyHeaders h) h0 !! canon name
  = if String.eqb name "User-Agent" then Some ["MyCustomUserAgent"]
    else Some (default [] (h0 !! canon name) ++ values).
Proof.
  intros Hname Hvalues Hsole.
  destruct (range_split range Hrange CopyHeaders h name values Hname)
    as (l1 & l2 & -> & Hrest).
  apply Forall_app in Hrest as [Hl1 Hl2].
  assert (Hframe : forall l : Header.entries,
             Forall (fun e => e.1 <> name /\ h !! e.1 = Some e.2) l ->
             Forall (fun e => canon e.1 <> canon name \/ e.2 = []) l).
  { intros l Hl. eapply Forall_impl; [exact Hl|]. intros [k vs]. simpl. intros [Hk Hin].
    destruct vs as [|v vs]; [by right|]. left. intros Hcanon.
    apply Hk. by apply (Hsole k (v :: vs) Hin). }
  rewrite copyHeaders_app. unfold copyHeaders at 1. simpl.
  fold (copyHeaders l2 (copyEntry (copyHeaders l1 h0) (name, values))).
  rewrite (copyHeaders_frame l2) by auto.
  destruct (String.eqb name "User-Agent") eqn:Hua.
  - apply String.eqb_eq in Hua as ->. rewrite copyEntry_User_Agent.
    destruct values; [done|]. rewrite canon_User_Agent. apply lookup_insert_eq.
  - apply String.eqb_neq in Hua. rewrite copyEntry_other by done.
    rewrite fold_Add by done. rewrite lookup_insert_eq.
    by rewrite (copyHeaders_frame l1) by auto.
Qed.

(** C2: the outbound request always carries X-Added-Header with the one
    value HeaderValue, whatever the inbound request carried under that
    name: it holds for the header transformation on every request and
    every order of the copy, and for every request a run of the handler
    hands to the upstream server, where no other spelling of the name is
    a key. *)
Theorem C2_added_header_set url_Parse client_Do range
    (r : Request.t) (targetServer : string) (s : World) :
  (forall proxyReq,
     Request.Header (transformHeaders range r proxyReq) !! "X-Added-Header"
     = Some ["HeaderValue"])
  /\ Forall (fun p => Request.Header p !! "X-Added-Header" = Some ["HeaderValue"]
                      /\ oneSpelling "X-Added-Header" (Request.Header p))
            (sent s (redirectHandler url_Parse client_Do range r targetServer s).2).
Proof.
  assert (Hset : forall r0 proxyReq,
    Request.Header (transformHeaders range r0 proxyReq) !! "X-Added-Header"
    = Some ["HeaderValue"]).
  { intros r0 proxyReq. rewrite transformHeaders_Header.
    rewrite <- canon_X_Added_Header at 2. apply Set_lookup. }
  split; [apply Hset|].
  pose proof (sent_canonKeys url_Parse client_Do range r targetServer s) as Hkeys.
  destruct (handler_sent url_Parse client_Do range r targetServer s)
    as [->|(target & p & _ & Hnew & Hsent)]; [constructor|].
  rewrite Hsent in *. apply Forall_cons in Hkeys as [Hkeys _].
  repeat constructor; [apply Hset|].
  by apply canonKeys_oneSpelling.
Qed.

(** C1 (amended): when the inbound header map holds at least one value
    under the key User-Agent, and no value under another key that
    canonicalises to User-Agent, the outbound request has exactly one
    User-Agent value, the constant MyCustomUserAgent, whatever the number
    of inbound values and the order of the copy, and no other spelling of
    the name is a key of the request sent. *)
Theorem C1_user_agent_overridden url_Parse client_Do range
    (r : Request.t) (targetServer : string) (s : World) (values : list string) :
  enumerates range ->
  Request.Header r !! "User-Agent" = Some values ->
  values <> [] ->
  soleKey "User-Agent" (Request.Header r) ->
  (forall proxyReq,
     Request.Header (transformHeaders range r proxyReq) !! "User-Agent"
     = Some ["MyCustomUserAgent"])
  /\ Forall (fun p => Request.Header p !! "User-Agent" = Some ["MyCustomUserAgent"]
                      /\ oneSpelling "User-Agent" (Request.Header p))
            (sent s (redirectHandler url_Parse client_Do range r targetServer s).2).
Proof.
  intros Hrange Hua Hvalues Hsole.
  assert (Hset : forall proxyReq,
    Request.Header (transformHeaders range r proxyReq) !! "User-Agent"
    = Some ["MyCustomUserAgent"]).
  { intros proxyReq. rewrite transformHeaders_Header.
    rewrite Set_lookup_ne by done.
    rewrite <- canon_User_Agent at 1.
    by rewrite (copyHeaders_entry range Hrange _ _ _ _ Hua Hvalues Hsole). }
  split; [apply Hset|].
  pose proof (sent_canonKeys url_Parse client_Do range r targetServer s) as Hkeys.
  destruct (handler_sent url_Parse client_Do range r targetServer s)
    as [->|(target & p & _ & Hnew & Hsent)]; [constructor|].
  rewrite Hsent in *. apply Forall_cons in Hkeys as [Hkeys _].
  repeat constructor; [|by apply canonKeys_oneSpelling].
  destruct (logRequest_fields range r requestLogger s) as (_ & _ & Hh).
  rewrite (transformHeaders_ext range _ r) by done. apply Hset.
Qed.

(** C10: the override looks at the key of the map as it is, byte for
    byte: the key User-Agent itself gets the constant, and for a key that
    is not exactly User-Agent (a case variant of it included) the inner
    loop appends every value, in order and with repetitions kept, under
    the canonical form of the key; when no other key shares that form the
    outbound request carries exactly these values under it. *)
Theorem C10_other_keys_appended range (r proxyReq : Request.t)
    (name : string) (values : list string) (h : Header.t) :
  enumerates range ->
  Request.Header r !! name = Some values ->
  name <> "User-Agent" ->
  copyEntry h (name, values) = fold_left (fun h v => Header.Add name v h) values h
  /\ (values <> [] ->
      copyEntry h (name, values) !! canon name
      = Some (default [] (h !! canon name) ++ values))
  /\ (values <> [] -> soleKey name (Request.Header r) -> canon name <> "X-Added-Header" ->
      Request.Header (transformHeaders range r proxyReq) !! canon name
      = Some (default [] (Request.Header proxyReq !! canon name) ++ values))
  /\ copyEntry h ("User-Agent", values)
     = match values with
       | [] => h
       | _ :: _ => <["User-Agent" := ["MyCustomUserAgent"]]> h
       end.
Proof.
  intros Hrange Hname Hne. split; [by apply copyEntry_other|]. split; [|split].
  - intros Hvalues. rewrite copyEntry_other by done.
    rewrite fold_Add by done. apply lookup_insert_eq.
  - intros Hvalues Hsole Hadded. rewrite transformHeaders_Header.
    rewrite Set_lookup_ne by (rewrite canon_X_Added_Header; congruence).
    rewrite (copyHeaders_entry range Hrange _ _ _ _ Hname Hvalues Hsole).
    apply String.eqb_neq in Hne. by rewrite Hne.
  - apply copyEntry_User_Agent.
Qed.

Lemma enumerates_mapOrder : enumerates mapOrder.
Proof. intros site h. reflexivity. Qed.

Lemma added_header_sample :
  List.map (fun p => Request.Header p !! "X-Added-Header")
    (upstream (redirectHandler url.Parse Sample.upstreamCreated mapOrder Sample.request
                 Sample.targetServer newWorld).2)
  = [Some ["HeaderValue"]].
Proof. vm_compute. reflexivity. Qed.

Lemma C1_witness :
  (forall proxyReq,
     Request.Header (transformHeaders mapOrder Sample.request proxyReq) !! "User-Agent"
     = Some ["MyCustomUserAgent"])
  /\ Forall (fun p => Request.Header p !! "User-Agent" = Some ["MyCustomUserAgent"]
                      /\ oneSpelling "User-Agent" (Request.Header p))
            (sent newWorld
               (redirectHandler url.Parse Sample.upstreamCreated mapOrder Sample.request
                  Sample.targetServer newWorld).2).
Proof.
  apply (C1_user_agent_overridden url.Parse Sample.upstreamCreated mapOrder Sample.request
           Sample.targetServer newWorld ["curl/8"; "probe"]).
  - exact enumerates_mapOrder.
  - reflexivity.
  - discriminate.
  - apply (bool_decide_unpack _). vm_compute. exact I.
Defined.

(** C1 fails as stated: a request with no User-Agent value leaves the
    handler without a User-Agent header, and a map key that is a case
    variant of the name keeps its inbound value. *)
Lemma C1_counterexample :
  List.map (fun p => Request.Header p !! "User-Agent")
    (sent newWorld
       (redirectHandler url.Parse Sample.upstreamCreated mapOrder Sample.bare
          Sample.targetServer newWorld).2)
  = [None]
  /\ List.map (fun p => Request.Header p !! "User-Agent")
       (sent newWorld
          (redirectHandler url.Parse Sample.upstreamCreated mapOrder Sample.lowerCase
             Sample.targetServer newWorld).2)
     = [Some ["curl/8"]].
Proof. split; vm_compute; reflexivity. Qed.

Lemma C10_witness :
  copyEntry ∅ ("user-agent", ["curl/8"; "curl/8"])
  = fold_left (fun h v => Header.Add "user-agent" v h) ["curl/8"; "curl/8"] ∅
  /\ copyEntry ∅ ("user-agent", ["curl/8"; "curl/8"]) !! "User-Agent"
     = Some ["curl/8"; "curl/8"]
  /\ Request.Header
       (transformHeaders mapOrder
          (Request.mk "GET" Sample.inboundURL (<["user-agent" := ["curl/8"; "curl/8"]]> ∅)
             (Sample.body ""))
          Sample.bare) !! "User-Agent"
     = Some ["curl/8"; "curl/8"].
Proof.
  pose proof (C10_other_keys_appended mapOrder
    (Request.mk "GET" Sample.inboundURL (<["user-agent" := ["curl/8"; "curl/8"]]> ∅)
       (Sample.body ""))
    Sample.bare "user-agent" ["curl/8"; "curl/8"] ∅ enumerates_mapOrder eq_refl) as H.
  destruct H as (H1 & H2 & H3 & _); [discriminate|].
  split; [exact H1|]. split.
  - apply H2. discriminate.
  - apply H3; [discriminate| |discriminate].
    apply (bool_decide_unpack _). vm_compute. exact I.
Defined.

(** ** Logging and the bodies *)

(** C3: when the body is read to its end, [logRequest] leaves the
    request with a new readable stream over exactly the bytes of the
    original body, and these are the bytes of the request that is handed
    on to the upstream server; [logResponse] does the same for the body
    of the upstream response. *)
Theorem C3_logging_keeps_body url_Parse client_Do range
    (r : Request.t) (resp : Response.t) (targetServer : string) (s : World) :
  io.fault (Request.Body r) = None ->
  io.fault (Response.Body resp) = None ->
  let r' := (logRequest range r requestLogger s).1 in
  let resp' := (logResponse range resp responseLogger s).1 in
  Request.Body r' = io.NopCloser_NewBuffer (io.pending (Request.Body r))
  /\ (io.ReadAll (Request.Body r')).1 = (io.pending (Request.Body r), None)
  /\ Forall (fun p => (io.ReadAll (Request.Body p)).1 = (io.pending (Request.Body r), None))
            (sent s (redirectHandler url_Parse client_Do range r targetServer s).2)
  /\ Response.Body resp' = io.NopCloser_NewBuffer (io.pending (Response.Body resp))
  /\ (io.ReadAll (Response.Body resp')).1 = (io.pending (Response.Body resp), None).
Proof.
  intros Hr Hresp. simpl.
  destruct (handler_sent url_Parse client_Do range r targetServer s)
    as [->|(target & p & _ & Hnew & ->)].
  - rewrite (logRequest_ok _ _ _ _ Hr), (logResponse_ok _ _ _ _ Hresp). simpl.
    repeat split; constructor.
  - apply NewRequest_fields in Hnew as (_ & Hbody & _).
    repeat constructor; rewrite ?transformHeaders_Body, ?Hbody;
      rewrite ?(logRequest_ok _ _ _ _ Hr), ?(logResponse_ok _ _ _ _ Hresp); done.
Qed.

(** C8: [logRequest] sends to the request logger, in this order, one
    line with the method and the URL, one line for each pair of a header
    name and one of its values (as many lines as pairs, the pairs of the
    map in the order of the loop), and one line with the body bytes as
    text; when the read fails that last line is the failure instead, and
    the handler goes on to the upstream attempt all the same. Nothing
    else of the world changes. *)
Theorem C8_request_lines url_Parse client_Do range
    (r : Request.t) (targetServer : string) (s : World) :
  enumerates range ->
  let entries := range LogRequestHeaders (Request.Header r) in
  let s' := (logRequest range r requestLogger s).2 in
  requestLog s'
  = requestLog s
    ++ ("Request: " +:+ Request.Method r +:+ " " +:+ url.URL_String (Request.URL r))
       :: headerLines "Request Header: " entries
    ++ [match io.fault (Request.Body r) with
        | None => "Request Body: " +:+ string_of_list_byte (io.pending (Request.Body r))
        | Some err => "Failed to read request body: " +:+ err
        end]
  /\ headerLines "Request Header: " entries
     ≡ₚ headerLines "Request Header: " (map_to_list (Request.Header r))
  /\ List.length (headerLines "Request Header: " entries)
     = pairCount (map_to_list (Request.Header r))
  /\ (responseLog s' = responseLog s /\ errorLog s' = errorLog s
      /\ w s' = w s /\ upstream s' = upstream s)
  /\ (forall target proxyReq,
        url_Parse targetServer = inr target ->
        http_NewRequest url_Parse (Request.Method r)
          (url.URL_String (url.ResolveReference target (Request.URL r)))
          (Request.Body (logRequest range r requestLogger s).1) = inr proxyReq ->
        List.length (sent s (redirectHandler url_Parse client_Do range r targetServer s).2)
        = 1%nat).
Proof.
  intros Hrange. simpl.
  assert (Hperm := headerLines_Permutation "Request Header: " _ _
                     (Hrange LogRequestHeaders (Request.Header r))).
  split; [|split; [done|split; [|split]]].
  - destruct (io.fault (Request.Body r)) as [err|] eqn:Hf.
    + by rewrite (logRequest_fail _ _ _ _ _ Hf).
    + by rewrite (logRequest_ok _ _ _ _ Hf).
  - rewrite (Permutation_length Hperm). apply headerLines_length.
  - apply logRequest_world.
  - intros target proxyReq Hp Hn. unfold sent.
    destruct (logRequest_fields range r requestLogger s) as (Hm & Hu & _).
    rewrite <- Hm, <- Hu in Hn.
    rewrite (handler_upstream_sent _ _ _ _ _ _ _ _ Hp Hn).
    by rewrite drop_app_length.
Qed.

(** C9: when the read of the request body fails, [logRequest] returns
    after the failure line and the request keeps the drained stream that
    failed, not a new stream over the bytes; the outbound request is
    built on that stream. *)
Theorem C9_failed_read_not_restored url_Parse client_Do range
    (r : Request.t) (targetServer : string) (s : World) (err : error) :
  io.fault (Request.Body r) = Some err ->
  let r' := (logRequest range r requestLogger s).1 in
  Request.Body r' = io.mkReader [] (Some err)
  /\ (forall bytes, Request.Body r' <> io.NopCloser_NewBuffer bytes)
  /\ requestLog (logRequest range r requestLogger s).2
     = requestLog s ++ requestHead range r ++ ["Failed to read request body: " +:+ err]
  /\ Forall (fun p => Request.Body p = io.mkReader [] (Some err))
            (sent s (redirectHandler url_Parse client_Do range r targetServer s).2)
  /\ (forall target proxyReq,
        url_Parse targetServer = inr target ->
        http_NewRequest url_Parse (Request.Method r)
          (url.URL_String (url.ResolveReference target (Request.URL r)))
          (io.mkReader [] (Some err)) = inr proxyReq ->
        sent s (redirectHandler url_Parse client_Do range r targetServer s).2
        = [transformHeaders range r proxyReq]).
Proof.
  intros Hf. simpl.
  assert (Hbody : Request.Body (logRequest range r requestLogger s).1
                  = io.mkReader [] (Some err)).
  { by rewrite (logRequest_fail _ _ _ _ _ Hf). }
  split; [done|]. split; [by rewrite Hbody|]. split.
  { by rewrite (logRequest_fail _ _ _ _ _ Hf). }
  destruct (logRequest_fields range r requestLogger s) as (Hm & Hu & Hh).
  split.
  - destruct (handler_sent url_Parse client_Do range r targetServer s)
      as [->|(target & p & _ & Hnew & ->)]; [constructor|].
    apply NewRequest_fields in Hnew as (_ & Hb & _).
    repeat constructor. by rewrite transformHeaders_Body, Hb.
  - intros target proxyReq Hp Hn. unfold sent.
    rewrite <- Hm, <- Hu, <- Hbody in Hn.
    rewrite (handler_upstream_sent _ _ _ _ _ _ _ _ Hp Hn).
    rewrite drop_app_length. f_equal. by apply transformHeaders_ext.
Qed.

(** ** Forwarding the response *)




(** ** The handler *)

(** C4: with the target [http://api.example.com/base] and the inbound
    URL of path [/v1/items] and query [x=1], the reference resolves to
    [http://api.example.com/v1/items?x=1] (scheme and host of the
    target, path and query of the request, the path [/base] dropped),
    and this is the URL of the one request the handler sends. *)
Theorem C4_upstream_url client_Do range
    (header : Header.t) (body : io.Reader) (s : World) :
  let target := url.mkURL "http" "" None "api.example.com" "/base" false false "" "" in
  let inbound := url.mkURL "" "" None "" "/v1/items" false false "x=1" "" in
  url.Parse "http://api.example.com/base" = inr target
  /\ url.ParseRequestURI "/v1/items?x=1" = inr inbound
  /\ url.ResolveReference target inbound
     = url.mkURL "http" "" None "api.example.com" "/v1/items" false false "x=1" ""
  /\ url.URL_String (url.ResolveReference target inbound)
     = "http://api.example.com/v1/items?x=1"
  /\ List.map (fun p => url.URL_String (Request.URL p))
       (sent s (redirectHandler url.Parse client_Do range
                  (Request.mk "GET" inbound header body)
                  "http://api.example.com/base" s).2)
     = ["http://api.example.com/v1/items?x=1"].
Proof.
  simpl. repeat (split; [reflexivity|]).
  set (r := Request.mk "GET" _ header body).
  destruct (logRequest_fields range r requestLogger s) as (Hm & Hu & _).
  assert (Hn : http_NewRequest url.Parse
                 (Request.Method (logRequest range r requestLogger s).1)
                 (url.URL_String
                    (url.ResolveReference
                       (url.mkURL "http" "" None "api.example.com" "/base" false false "" "")
                       (Request.URL (logRequest range r requestLogger s).1)))
                 (Request.Body (logRequest range r requestLogger s).1)
               = inr (Request.mk "GET"
                        (url.mkURL "http" "" None "api.example.com" "/v1/items"
                                   false false "x=1" "")
                        ∅ (Request.Body (logRequest range r requestLogger s).1))).
  { rewrite Hm, Hu. generalize (Request.Body (logRequest range r requestLogger s).1).
    intros b. reflexivity. }
  unfold sent.
  rewrite (handler_upstream_sent url.Parse client_Do range r
             "http://api.example.com/base" s _ _ eq_refl Hn).
  rewrite drop_app_length. reflexivity.
Qed.

Lemma proxyRequest_Some url_Parse range r targetServer s p :
  proxyRequest url_Parse range r targetServer s = Some p ->
  exists target proxyReq,
    url_Parse targetServer = inr target
    /\ http_NewRequest url_Parse (Request.Method (logRequest range r requestLogger s).1)
         (url.URL_String
            (url.ResolveReference target (Request.URL (logRequest range r requestLogger s).1)))
         (Request.Body (logRequest range r requestLogger s).1) = inr proxyReq
    /\ p = transformHeaders range (logRequest range r requestLogger s).1 proxyReq.
Proof.
  unfold proxyRequest. destruct (url_Parse targetServer) as [|target]; [done|].
  destruct (http_NewRequest _ _ _ _) as [|proxyReq] eqn:Hn; [done|].
  intros [= <-]. eauto.
Qed.



(** C6: when the upstream call fails, the client is sent the status 500
    and the message "Failed to connect to server", one line goes to the
    error log, no response is logged, and the request was handed to the
    upstream client exactly once. *)
Theorem C6_dispatch_failure url_Parse client_Do range
    (r : Request.t) (targetServer : string) (p : Request.t) (err : error)
    (reqL respL errL : list string) (ups : list Request.t) :
  proxyRequest url_Parse range r targetServer
    (mkWorld reqL respL errL ResponseWriter.fresh ups) = Some p ->
  client_Do p = inl err ->
  let final :=
    (redirectHandler url_Parse client_Do range r targetServer
       (mkWorld reqL respL errL ResponseWriter.fresh ups)).2 in
  ResponseWriter.status (w final) = Some 500
  /\ ResponseWriter.body (w final) = errorBody "Failed to connect to server"
  /\ errorLog final = errL ++ ["Failed to connect to server: " +:+ err]
  /\ upstream final = ups ++ [p]
  /\ responseLog final = respL.
Proof.
  intros Hp Hdo. cbv zeta.
  apply proxyRequest_Some in Hp as (target & proxyReq & Hparse & Hnew & ->).
  rewrite (handler_connect_error _ _ _ _ _ _ _ _ _ Hparse Hnew Hdo).
  pose proof (logRequest_world range r (mkWorld reqL respL errL ResponseWriter.fresh ups))
    as (Hresp & Herr & Hw & Hup). simpl in *.
  rewrite Hw, Herr, Hup, Hresp. done.
Qed.

(** C7: when the target URL does not parse, the client is sent the
    status 500 and the message "Invalid target server URL", the parse
    error goes to the error log in one line, and nothing else happens
    after [logRequest]: no request is built or sent, no response is
    logged. *)
Theorem C7_invalid_target url_Parse client_Do range
    (r : Request.t) (targetServer : string) (err : error)
    (reqL respL errL : list string) (ups : list Request.t) :
  url_Parse targetServer = inl err ->
  let start := mkWorld reqL respL errL ResponseWriter.fresh ups in
  let final := (redirectHandler url_Parse client_Do range r targetServer start).2 in
  w final = ResponseWriter.Error "Invalid target server URL" 500 ResponseWriter.fresh
  /\ ResponseWriter.status (w final) = Some 500
  /\ ResponseWriter.body (w final) = errorBody "Invalid target server URL"
  /\ errorLog final = errL ++ ["Invalid target server URL: " +:+ err]
  /\ requestLog final = requestLog (logRequest range r requestLogger start).2
  /\ responseLog final = respL
  /\ upstream final = ups
  /\ proxyRequest url_Parse range r targetServer start = None.
Proof.
  intros Hparse. cbv zeta.
  rewrite (handler_parse_error _ _ _ _ _ _ _ Hparse).
  pose proof (logRequest_world range r (mkWorld reqL respL errL ResponseWriter.fresh ups))
    as (Hresp & Herr & Hw & Hup). simpl in *.
  rewrite Hw, Herr, Hup, Hresp. unfold proxyRequest. rewrite Hparse. done.
Qed.

(** ** The properties on the sample data *)

Lemma C3_witness :
  (io.ReadAll
     (Request.Body (logRequest mapOrder Sample.request requestLogger newWorld).1)).1
  = (list_byte_of_string "payload", None)
  /\ Forall (fun p => (io.ReadAll (Request.Body p)).1 = (list_byte_of_string "payload", None))
       (sent newWorld
          (redirectHandler url.Parse Sample.upstreamCreated mapOrder Sample.request
             Sample.targetServer newWorld).2)
  /\ (io.ReadAll
        (Response.Body (logResponse mapOrder Sample.created responseLogger newWorld).1)).1
     = (list_byte_of_string "hello", None).
Proof.
  destruct (C3_logging_keeps_body url.Parse Sample.upstreamCreated mapOrder Sample.request
              Sample.created Sample.targetServer newWorld eq_refl eq_refl)
    as (_ & Hreq & Hsent & _ & Hresp).
  split; [exact Hreq|]. split; [exact Hsent|exact Hresp].
Defined.



Lemma C6_witness :
  let final :=
    (redirectHandler url.Parse Sample.upstreamDown mapOrder Sample.request
       Sample.targetServer newWorld).2 in
  ResponseWriter.status (w final) = Some 500
  /\ ResponseWriter.body (w final)
     = list_byte_of_string ("Failed to connect to server" +:+ String (ascii_of_N 10) "")
  /\ errorLog final = ["Failed to connect to server: dial tcp: connection refused"]
  /\ List.length (upstream final) = 1%nat
  /\ responseLog final = [].
Proof.
  edestruct C6_dispatch_failure
    with (url_Parse := url.Parse) (client_Do := Sample.upstreamDown) (range := mapOrder)
         (r := Sample.request) (targetServer := Sample.targetServer)
         (err := "dial tcp: connection refused")
         (reqL := @nil string) (respL := @nil string) (errL := @nil string)
         (ups := @nil Request.t)
    as (Hstatus & Hbody & Herr & Hup & Hresp).
  - vm_compute. reflexivity.
  - reflexivity.
  - cbv zeta. split; [exact Hstatus|]. split; [exact Hbody|]. split; [exact Herr|].
    split; [|exact Hresp]. change newWorld with (mkWorld [] [] [] ResponseWriter.fresh []).
    by rewrite Hup.
Defined.

Lemma C7_witness :
  let final :=
    (redirectHandler url.Parse Sample.upstreamCreated mapOrder Sample.request
       "://example.com" newWorld).2 in
  ResponseWriter.status (w final) = Some 500
  /\ ResponseWriter.body (w final)
     = list_byte_of_string ("Invalid target server URL" +:+ String (ascii_of_N 10) "")
  /\ errorLog final
     = ["Invalid target server URL: parse " +:+ GoStrings.Quote "://example.com"
        +:+ ": missing protocol scheme"]
  /\ upstream final = []
  /\ responseLog final = [].
Proof.
  destruct (C7_invalid_target url.Parse Sample.upstreamCreated mapOrder Sample.request
              "://example.com"
              ("parse " +:+ GoStrings.Quote "://example.com" +:+ ": missing protocol scheme")
              [] [] [] [] eq_refl)
    as (_ & Hstatus & Hbody & Herr & _ & Hresp & Hup & _).
  cbv zeta. split; [exact Hstatus|]. split; [exact Hbody|]. split; [exact Herr|].
  split; [exact Hup|exact Hresp].
Defined.

Lemma C8_witness :
  requestLog (logRequest mapOrder Sample.request requestLogger newWorld).2
  = ["Request: POST /v1/items?x=1";
     "Request Header: User-Agent: curl/8"; "Request Header: User-Agent: probe";
     "Request Header: Accept: a"; "Request Header: Accept: a";
     "Request Body: payload"]
  /\ pairCount (map_to_list (Request.Header Sample.request)) = 4%nat.
Proof.
  destruct (C8_request_lines url.Parse Sample.upstreamCreated mapOrder Sample.request
              Sample.targetServer newWorld enumerates_mapOrder)
    as (Hlog & _ & Hcount & _).
  split; [exact Hlog|]. rewrite <- Hcount. reflexivity.
Defined.

Lemma C9_witness :
  Request.Body (logRequest mapOrder Sample.brokenRequest requestLogger newWorld).1
  = io.mkReader [] (Some "unexpected EOF")
  /\ requestLog (logRequest mapOrder Sample.brokenRequest requestLogger newWorld).2
     = ["Request: POST /v1/items?x=1"; "Request Header: Accept: a";
        "Failed to read request body: unexpected EOF"]
  /\ List.map Request.Body
       (sent newWorld
          (redirectHandler url.Parse Sample.upstreamCreated mapOrder Sample.brokenRequest
             Sample.targetServer newWorld).2)
     = [io.mkReader [] (Some "unexpected EOF")].
Proof.
  destruct (C9_failed_read_not_restored url.Parse Sample.upstreamCreated mapOrder
              Sample.brokenRequest Sample.targetServer newWorld "unexpected EOF" eq_refl)
    as (Hbody & _ & Hlog & _ & Hsent).
  split; [exact Hbody|]. split; [exact Hlog|].
  by rewrite (Hsent _ _ eq_refl eq_refl).
Defined.


(** * Further properties of the handler *)

Section Paths.
Context (url_Parse : string -> error + url.URL)
        (client_Do : Request.t -> error + Response.t)
        (range : Site -> Header.t -> Header.entries).

Local Abbreviation handler := (redirectHandler url_Parse client_Do range).
Local Abbreviation logged r s := (logRequest range r requestLogger s).

(** Whether [http.NewRequest] fails does not depend on the body. *)
Lemma NewRequest_error_body method url_ body body' err :
  http_NewRequest url_Parse method url_ body = inl err ->
  http_NewRequest url_Parse method url_ body' = inl err.
Proof.
  unfold http_NewRequest. destruct (negb _); [done|].
  by destruct (url_Parse url_).
Qed.

(** The five ways through the handler, each with the world it ends in:
    the last two forward the response [logResponse] left. *)
Lemma handler_paths r targetServer s :
  (exists err,
     url_Parse targetServer = inl err
     /\ proxyRequest url_Parse range r targetServer s = None
     /\ (handler r targetServer s).2
        = appendLog errorLogger ["Invalid target server URL: " +:+ err]
            (withWriter (ResponseWriter.Error "Invalid target server URL" 500)
                        (logged r s).2))
  \/ (exists target err,
        url_Parse targetServer = inr target
        /\ http_NewRequest url_Parse (Request.Method r)
             (url.URL_String (url.ResolveReference target (Request.URL r)))
             (Request.Body r) = inl err
        /\ proxyRequest url_Parse range r targetServer s = None
        /\ (handler r targetServer s).2
           = appendLog errorLogger ["Failed to create request: " +:+ err]
               (withWriter (ResponseWriter.Error "Failed to create request" 500)
                           (logged r s).2))
  \/ (exists p err,
        proxyRequest url_Parse range r targetServer s = Some p
        /\ client_Do p = inl err
        /\ (handler r targetServer s).2
           = appendLog errorLogger ["Failed to connect to server: " +:+ err]
               (withWriter (ResponseWriter.Error "Failed to connect to server" 500)
                           (withAttempt p (logged r s).2)))
  \/ (exists p resp,
        proxyRequest url_Parse range r targetServer s = Some p
        /\ client_Do p = inr resp
        /\ io.fault (Response.Body resp) = None
        /\ (handler r targetServer s).2
           = relay (range ForwardHeaders (Response.Header resp))
               (Response.set_Body
                  (io.NopCloser_NewBuffer (io.pending (Response.Body resp))) resp)
               (appendLog responseLogger
                  (responseHead range resp
                   ++ ["Response Body: "
                       +:+ string_of_list_byte (io.pending (Response.Body resp))])
                  (withAttempt p (logged r s).2)))
  \/ (exists p resp err,
        proxyRequest url_Parse range r targetServer s = Some p
        /\ client_Do p = inr resp
        /\ io.fault (Response.Body resp) = Some err
        /\ (handler r targetServer s).2
           = relay (range ForwardHeaders (Response.Header resp))
               (Response.set_Body (io.mkReader [] (Some err)) resp)
               (appendLog responseLogger
                  (responseHead range resp ++ ["Failed to read response body: " +:+ err])
                  (withAttempt p (logged r s).2))).
Proof.
  destruct (logRequest_fields range r requestLogger s) as (Hm & Hu & _).
  unfold proxyRequest.
  destruct (url_Parse targetServer) as [err|target] eqn:Hp.
  { left. exists err. by rewrite (handler_parse_error _ _ _ _ _ _ _ Hp). }
  right.
  destruct (http_NewRequest url_Parse (Request.Method (logged r s).1)
    (url.URL_String (url.ResolveReference target (Request.URL (logged r s).1)))
    (Request.Body (logged r s).1)) as [err|proxyReq] eqn:Hn.
  { left. exists target, err. rewrite (handler_request_error _ _ _ _ _ _ _ _ Hp Hn).
    rewrite Hm, Hu in Hn. by rewrite (NewRequest_error_body _ _ _ (Request.Body r) _ Hn). }
  right.
  destruct (client_Do (transformHeaders range (logged r s).1 proxyReq)) as [err|resp] eqn:Hd.
  { left. eexists _, err.
    by rewrite (handler_connect_error _ _ _ _ _ _ _ _ _ Hp Hn Hd). }
  right. rewrite (handler_success _ _ _ _ _ _ _ _ _ Hp Hn Hd).
  destruct (io.fault (Response.Body resp)) as [err|] eqn:Hf.
  - right. eexists _, resp, err. rewrite (logResponse_fail _ _ _ _ _ Hf). simpl. done.
  - left. eexists _, resp. rewrite (logResponse_ok _ _ _ _ Hf). simpl. done.
Qed.

End Paths.

(** X1: when [http.NewRequest] refuses the request (a method that is
    not a token, or a resolved URL that does not parse again), the
    client is sent the status 500 and the message "Failed to create
    request", the error goes to the error log in one line, and nothing
    is sent upstream or written to the response log. *)
Theorem X1_request_construction_failure url_Parse client_Do range
    (r : Request.t) (targetServer : string) (target : url.URL) (err : error)
    (reqL respL errL : list string) (ups : list Request.t) :
  url_Parse targetServer = inr target ->
  http_NewRequest url_Parse (Request.Method r)
    (url.URL_String (url.ResolveReference target (Request.URL r)))
    (Request.Body r) = inl err ->
  let final :=
    (redirectHandler url_Parse client_Do range r targetServer
       (mkWorld reqL respL errL ResponseWriter.fresh ups)).2 in
  ResponseWriter.status (w final) = Some 500
  /\ ResponseWriter.body (w final) = errorBody "Failed to create request"
  /\ errorLog final = errL ++ ["Failed to create request: " +:+ err]
  /\ upstream final = ups
  /\ responseLog final = respL.
Proof.
  intros Hp Hn. cbv zeta.
  set (s := mkWorld reqL respL errL ResponseWriter.fresh ups).
  destruct (logRequest_fields range r requestLogger s) as (Hm & Hu & _).
  pose proof (logRequest_world range r s) as (Hresp & Herr & Hw & Hup).
  apply (NewRequest_error_body _ _ _ _ (Request.Body (logRequest range r requestLogger s).1))
    in Hn.
  rewrite <- Hm, <- Hu in Hn.
  rewrite (handler_request_error _ _ _ _ _ _ _ _ Hp Hn). simpl in *.
  by rewrite Hw, Herr, Hup, Hresp.
Qed.

(** X2: a run hands at most one request to the upstream client, the
    request built for it when one could be built, whatever the upstream
    answers: nothing is sent twice and nothing is sent after a failure
    to build the request. *)
Theorem X2_one_attempt_at_most url_Parse client_Do range
    (r : Request.t) (targetServer : string) (s : World) :
  sent s (redirectHandler url_Parse client_Do range r targetServer s).2
  = match proxyRequest url_Parse range r targetServer s with
    | Some p => [p]
    | None => []
    end.
Proof.
  pose proof (logRequest_world range r s) as (_ & _ & _ & Hup). simpl in Hup.
  unfold sent.
  destruct (handler_paths url_Parse client_Do range r targetServer s)
    as [(err & _ & -> & ->)
       |[(target & err & _ & _ & -> & ->)
        |[(p & err & -> & _ & ->)
         |[(p & resp & -> & _ & _ & ->)
          |(p & resp & err & -> & _ & _ & ->)]]]];
    rewrite ?relay_upstream; simpl; rewrite Hup; by rewrite ?drop_all, ?drop_app_length.
Qed.

(** X3: when the status code of any upstream response is one that
    [WriteHeader] writes as the status (101, or 200 to 999), the client
    is always sent a status, whatever its connection does: 500 on each
    of the three failures before an upstream response, and the status
    code of the upstream response once there is one, also when its body
    then fails. *)
Theorem X3_status_always_written url_Parse client_Do range
    (r : Request.t) (targetServer : string)
    (reqL respL errL : list string) (room : option (nat * error))
    (ups : list Request.t) :
  let start := mkWorld reqL respL errL (ResponseWriter.connected room) ups in
  (forall p resp,
     proxyRequest url_Parse range r targetServer start = Some p ->
     client_Do p = inr resp ->
     ResponseWriter.finalStatus (Response.StatusCode resp) = true) ->
  ResponseWriter.status
    (w (redirectHandler url_Parse client_Do range r targetServer start).2)
  = Some match proxyRequest url_Parse range r targetServer start with
         | Some p => match client_Do p with
                     | inr resp => Response.StatusCode resp
                     | inl _ => 500
                     end
         | None => 500
         end.
Proof.
  cbv zeta. set (s := mkWorld reqL respL errL (ResponseWriter.connected room) ups).
  intros Hfinal.
  pose proof (logRequest_world range r s) as (_ & _ & Hw & _). simpl in Hw.
  destruct (handler_paths url_Parse client_Do range r targetServer s)
    as [(err & _ & Hnone & ->)
       |[(target & err & _ & _ & Hnone & ->)
        |[(p & err & Hsome & Hdo & ->)
         |[(p & resp & Hsome & Hdo & _ & ->)
          |(p & resp & err & Hsome & Hdo & _ & ->)]]]].
  - rewrite Hnone. cbn [appendLog withWriter w]. rewrite Hw. by rewrite Error_status.
  - rewrite Hnone. cbn [appendLog withWriter w]. rewrite Hw. by rewrite Error_status.
  - rewrite Hsome, Hdo. cbn [appendLog withWriter withAttempt w]. rewrite Hw.
    by rewrite Error_status.
  - rewrite Hsome, Hdo. rewrite relay_status; [done| |exact (Hfinal p resp Hsome Hdo)].
    cbn [appendLog withWriter withAttempt w]. by rewrite Hw.
  - rewrite Hsome, Hdo. rewrite relay_status; [done| |exact (Hfinal p resp Hsome Hdo)].
    cbn [appendLog withWriter withAttempt w]. by rewrite Hw.
Qed.


(** X5: in every run the request log receives the lines of
    [logRequest] and nothing more, and the response log receives lines
    only when the upstream answered: the first line and the header lines
    of the response, then its body or the failure of the read. *)
Theorem X5_log_accounting url_Parse client_Do range
    (r : Request.t) (targetServer : string) (s : World) :
  let final := (redirectHandler url_Parse client_Do range r targetServer s).2 in
  requestLog final = requestLog (logRequest range r requestLogger s).2
  /\ responseLog final
     = responseLog s
       ++ match proxyRequest url_Parse range r targetServer s with
          | Some p =>
              match client_Do p with
              | inr resp =>
                  responseHead range resp
                  ++ [match io.fault (Response.Body resp) with
                      | None => "Response Body: "
                                +:+ string_of_list_byte (io.pending (Response.Body resp))
                      | Some err => "Failed to read response body: " +:+ err
                      end]
              | inl _ => []
              end
          | None => []
          end.
Proof.
  cbv zeta.
  pose proof (logRequest_world range r s) as (Hresp & _ & _ & _). simpl in Hresp.
  destruct (handler_paths url_Parse client_Do range r targetServer s)
    as [(err & _ & -> & ->)
       |[(target & err & _ & _ & -> & ->)
        |[(p & err & -> & -> & ->)
         |[(p & resp & -> & -> & -> & ->)
          |(p & resp & err & -> & -> & -> & ->)]]]];
    rewrite ?relay_requestLog, ?relay_responseLog;
    simpl; rewrite Hresp; by rewrite ?app_nil_r.
Qed.


(** X7: [logResponse] sends to the logger it is given, and to nothing
    else, one line with the status, one line for each pair of a header
    name and one of its values, and one line with the body bytes as text
    or, when the read fails, with the failure; of the response only the
    body changes. *)
Theorem X7_response_lines range (resp : Response.t) (logger : Logger) (s : World) :
  let resp' := (logResponse range resp logger s).1 in
  (logResponse range resp logger s).2
  = appendLog logger
      (("Response: " +:+ Response.Status resp)
       :: headerLines "Response Header: "
            (range LogResponseHeaders (Response.Header resp))
       ++ [match io.fault (Response.Body resp) with
           | None => "Response Body: "
                     +:+ string_of_list_byte (io.pending (Response.Body resp))
           | Some err => "Failed to read response body: " +:+ err
           end]) s
  /\ Response.Status resp' = Response.Status resp
  /\ Response.StatusCode resp' = Response.StatusCode resp
  /\ Response.Header resp' = Response.Header resp
  /\ List.length (headerLines "Response Header: "
                    (range LogResponseHeaders (Response.Header resp)))
     = pairCount (range LogResponseHeaders (Response.Header resp)).
Proof.
  cbv zeta. rewrite headerLines_length.
  destruct (io.fault (Response.Body resp)) as [err|] eqn:Hf.
  - by rewrite (logResponse_fail _ _ _ _ _ Hf).
  - by rewrite (logResponse_ok _ _ _ _ Hf).
Qed.

(** X8: on a header map as the server parses it, the outbound header
    is the inbound one with User-Agent replaced by the constant when it
    is there and X-Added-Header set: every other header goes through with
    all its values, and the result does not depend on the order in which
    the map is visited. *)
Theorem X8_transform_parsed range (r proxyReq : Request.t) :
  enumerates range ->
  parsedHeader (Request.Header r) ->
  Request.Header proxyReq = ∅ ->
  Request.Header (transformHeaders range r proxyReq)
  = <["X-Added-Header" := ["HeaderValue"]]>
      (match Request.Header r !! "User-Agent" with
       | Some _ => <["User-Agent" := ["MyCustomUserAgent"]]> (Request.Header r)
       | None => Request.Header r
       end).
Proof.
  intros Hrange Hparsed Hempty. rewrite transformHeaders_Header, Hempty.
  unfold Header.Set_. rewrite canon_X_Added_Header. f_equal.
  apply map_eq. intros k.
  set (h := Request.Header r) in *.
  destruct (h !! k) as [vs|] eqn:Hk.
  - destruct (Hparsed k vs Hk) as [Hcanon Hvs].
    assert (Hsole : soleKey k h).
    { intros k' vs' Hk' _ Heq. destruct (Hparsed k' vs' Hk') as [Hc' _]. congruence. }
    pose proof (copyHeaders_entry range Hrange h ∅ k vs Hk Hvs Hsole) as Hcopy.
    rewrite Hcanon in Hcopy. rewrite Hcopy.
    destruct (String.eqb k "User-Agent") eqn:Hua.
    + apply String.eqb_eq in Hua as ->. rewrite Hk. by rewrite lookup_insert_eq.
    + apply String.eqb_neq in Hua. rewrite lookup_empty. simpl.
      destruct (h !! "User-Agent"); [by rewrite lookup_insert_ne|done].
  - rewrite copyHeaders_frame.
    + rewrite lookup_empty. destruct (h !! "User-Agent") eqn:Hua; [|done].
      rewrite lookup_insert_ne; [done|]. congruence.
    + apply Forall_forall. intros [k' vs'] Hin. simpl. left.
      apply (range_elem range Hrange) in Hin.
      destruct (Hparsed k' vs' Hin) as [-> _]. congruence.
Qed.

(** ** The upstream URL *)

Lemma resolvePath_absolute (base ref : string) :
  url.firstByteIs "/" ref = true -> url.resolvePath base ref = url.resolvePath "" ref.
Proof.
  intros Habs. unfold url.resolvePath. rewrite Habs.
  destruct ref as [|c ref]; [done|]. reflexivity.
Qed.

(** X9: for a request URL as the server delivers it (no scheme, no
    host, a path that starts with a slash), the upstream URL takes its
    scheme, userinfo and host from the target and its path, query and
    fragment from the request: the path, the query and the fragment of
    the configured target never reach the upstream URL. *)
Theorem X9_target_path_dropped (target ref : url.URL) :
  url.Scheme ref = "" -> url.Host ref = "" -> url.User ref = None -> url.Opaque ref = "" ->
  url.firstByteIs "/" (url.Path ref) = true ->
  url.ResolveReference target ref
  = url.mkURL (url.Scheme target) "" (url.User target) (url.Host target)
      (url.resolvePath "" (url.Path ref))
      (url.OmitHost ref) (url.ForceQuery ref) (url.RawQuery ref) (url.Fragment ref).
Proof.
  intros Hs Hh Hu Ho Hp. unfold url.ResolveReference.
  rewrite Hs, Hh, Hu, Ho. simpl.
  assert (Hne : GoStrings.nonEmpty (url.Path ref) = true).
  { by destruct (url.Path ref). }
  rewrite Hne. simpl. by rewrite (resolvePath_absolute _ _ Hp).
Qed.

(** * Start-up *)

Section StartupFacts.
Context (sys : System)
        (url_Parse : string -> error + url.URL)
        (client_Do : Request.t -> error + Response.t)
        (range : Site -> Header.t -> Header.entries).

Local Abbreviation started := (main sys url_Parse client_Do range newProcess).2.

Local Ltac run_main :=
  unfold main, loadConfig, openLog, andThen, ask, done_, log_Fatalf, log_Printf,
    errorLogger_Fatalf, setNonproxyHandler, newProcess; simpl.

Local Ltac no_listener H :=
  repeat (apply elem_of_cons in H as [H|H]; [discriminate|]);
  by apply elem_of_nil in H.

(** The process when the system lets the start-up through. *)
Lemma main_started config :
  startsWith sys config ->
  started
  = mkProcess (startupCalls config)
      ["Starting proxy server on localhost:" +:+ Port config]
      match listenAndServe sys ("localhost:" +:+ Port config) with
      | Some err => ["ListenAndServe: " +:+ err]
      | None => []
      end
      match listenAndServe sys ("localhost:" +:+ Port config) with
      | Some _ => Some 1
      | None => None
      end
      (Some (fun req =>
         redirectHandler url_Parse client_Do range req (TargetServer config))).
Proof.
  intros ((data & Hread & Hyaml) & Hmk & Hreq & Hresp & Herr).
  run_main. rewrite Hread. simpl. rewrite Hyaml. simpl. rewrite Hmk. simpl.
  rewrite Hreq. simpl. rewrite Hresp. simpl. rewrite Herr. simpl.
  by destruct (listenAndServe sys _).
Qed.

(** The process when a step before the listener fails. *)
Lemma main_stopped :
  (forall config, ~ startsWith sys config) ->
  exit started = Some 1
  /\ errorLoggerLines started = []
  /\ (exists line, stdLog started = [line])
  /\ NonproxyHandler started = None
  /\ (forall addr, http_ListenAndServe addr ∉ calls started).
Proof.
  intros Hno. unfold startsWith in Hno. run_main.
  destruct (readFile sys "config.yaml") as [e|data] eqn:Hread; simpl.
  { repeat split; eauto. intros addr H. no_listener H. }
  destruct (unmarshal sys data) as [e|config] eqn:Hyaml; simpl.
  { repeat split; eauto. intros addr H. no_listener H. }
  destruct (mkdirAll sys "logs") as [e|] eqn:Hmk; simpl.
  { repeat split; eauto. intros addr H. no_listener H. }
  destruct (openFile sys "logs/request.log") as [e|] eqn:Hreq; simpl.
  { repeat split; eauto. intros addr H. no_listener H. }
  destruct (openFile sys "logs/response.log") as [e|] eqn:Hresp; simpl.
  { repeat split; eauto. intros addr H. no_listener H. }
  destruct (openFile sys "logs/error.log") as [e|] eqn:Herr; simpl.
  { repeat split; eauto. intros addr H. no_listener H. }
  destruct (Hno config). eauto 10.
Qed.

(** The system either lets the start-up through or stops it. *)
Lemma startsWith_decide :
  (exists config, startsWith sys config) \/ (forall config, ~ startsWith sys config).
Proof.
  unfold startsWith.
  destruct (readFile sys "config.yaml") as [e|data] eqn:Hread;
    [right; intros c ((d & H & _) & _); congruence|].
  destruct (unmarshal sys data) as [e|config] eqn:Hyaml;
    [right; intros c ((d & H & H') & _); congruence|].
  destruct (mkdirAll sys "logs") eqn:Hmk; [right; intros c (_ & H & _); congruence|].
  destruct (openFile sys "logs/request.log") eqn:Hreq;
    [right; intros c (_ & _ & H & _); congruence|].
  destruct (openFile sys "logs/response.log") eqn:Hresp;
    [right; intros c (_ & _ & _ & H & _); congruence|].
  destruct (openFile sys "logs/error.log") eqn:Herr;
    [right; intros c (_ & _ & _ & _ & H); congruence|].
  left. exists config. eauto 10.
Qed.

End StartupFacts.

(** X10: [main] calls [http.ListenAndServe] only once the
    configuration is read and parsed, the logs directory made and the
    three log files opened, in this order and each once; the address is
    [localhost:] followed by the configured port. *)
Theorem X10_listens_after_startup sys url_Parse client_Do range (addr : string) :
  http_ListenAndServe addr ∈ calls (main sys url_Parse client_Do range newProcess).2 ->
  exists config,
    startsWith sys config
    /\ addr = "localhost:" +:+ Port config
    /\ calls (main sys url_Parse client_Do range newProcess).2 = startupCalls config.
Proof.
  intros Hin. destruct (startsWith_decide sys) as [[config Hstart]|Hno].
  - exists config. split; [done|].
    rewrite (main_started sys url_Parse client_Do range config Hstart) in *.
    simpl in *. split; [|done].
    repeat (apply elem_of_cons in Hin as [Hin|Hin]; [discriminate || by injection Hin|]).
    by apply elem_of_nil in Hin.
  - destruct (main_stopped sys url_Parse client_Do range Hno) as (_ & _ & _ & _ & Hnot).
    by destruct (Hnot addr).
Qed.

(** X11: [main] ends in one of three ways. It serves, with the handler
    installed and nothing on the error logger; or [ListenAndServe]
    returns and its error is the one line of the error logger before
    the exit; or a step before the listener fails, and the process
    exits with status 1 after one line on the standard logger, with
    nothing on the error logger, no handler installed and no listener
    called. *)
Theorem X11_startup_outcomes sys url_Parse client_Do range :
  let p := (main sys url_Parse client_Do range newProcess).2 in
  (exists config,
     startsWith sys config
     /\ listenAndServe sys ("localhost:" +:+ Port config) = None
     /\ exit p = None /\ errorLoggerLines p = []
     /\ NonproxyHandler p
        = Some (fun req =>
                  redirectHandler url_Parse client_Do range req (TargetServer config)))
  \/ (exists config err,
        startsWith sys config
        /\ listenAndServe sys ("localhost:" +:+ Port config) = Some err
        /\ exit p = Some 1 /\ errorLoggerLines p = ["ListenAndServe: " +:+ err]
        /\ stdLog p = ["Starting proxy server on localhost:" +:+ Port config])
  \/ ((forall config, ~ startsWith sys config)
      /\ exit p = Some 1 /\ errorLoggerLines p = []
      /\ (exists line, stdLog p = [line])
      /\ NonproxyHandler p = None
      /\ forall addr, http_ListenAndServe addr ∉ calls p).
Proof.
  cbv zeta. destruct (startsWith_decide sys) as [[config Hstart]|Hno].
  - rewrite (main_started sys url_Parse client_Do range config Hstart).
    destruct (listenAndServe sys ("localhost:" +:+ Port config)) as [err|] eqn:Hl.
    + right. left. exists config, err. by rewrite Hl.
    + left. exists config. by rewrite Hl.
  - right. right. split; [done|]. by apply main_stopped.
Qed.

(** X12: [main] does not look at the target of the configuration: with
    a target that does not parse the start-up goes through to the
    listener, and the handler it installed answers every request with
    the status 500 and "Invalid target server URL", sending nothing
    upstream. *)
Theorem X12_target_not_checked_at_startup sys url_Parse client_Do range
    (config : Config) (err : error) :
  startsWith sys config ->
  url_Parse (TargetServer config) = inl err ->
  let p := (main sys url_Parse client_Do range newProcess).2 in
  http_ListenAndServe ("localhost:" +:+ Port config) ∈ calls p
  /\ exists h,
       NonproxyHandler p = Some h
       /\ forall (r : Request.t) (reqL respL errL : list string) (ups : list Request.t),
            let final := (h r (mkWorld reqL respL errL ResponseWriter.fresh ups)).2 in
            ResponseWriter.status (w final) = Some 500
            /\ ResponseWriter.body (w final) = errorBody "Invalid target server URL"
            /\ upstream final = ups.
Proof.
  intros Hstart Hparse. cbv zeta.
  rewrite (main_started sys url_Parse client_Do range config Hstart). simpl.
  split.
  { unfold startupCalls. do 5 apply list_elem_of_further. apply list_elem_of_here. }
  eexists. split; [done|]. intros r reqL respL errL ups. cbv beta zeta.
  rewrite (handler_parse_error _ _ _ _ _ _ _ Hparse).
  pose proof (logRequest_world range r (mkWorld reqL respL errL ResponseWriter.fresh ups))
    as (_ & _ & Hw & Hup). simpl in *.
  by rewrite Hw, Hup.
Qed.

(** * The request sent upstream *)






(** ** Canonical keys on the wire *)

Lemma canonByte_idem upper c :
  textproto.canonByte upper (textproto.canonByte upper c) = textproto.canonByte upper c.
Proof. destruct upper, c as [[] [] [] [] [] [] [] []]; reflexivity. Qed.

Lemma valid_canonByte upper c :
  textproto.validHeaderFieldByte (textproto.canonByte upper c)
  = textproto.validHeaderFieldByte c.
Proof. destruct upper, c as [[] [] [] [] [] [] [] []]; reflexivity. Qed.

Lemma canonicalize_idem upper (s : string) :
  textproto.canonicalize upper (textproto.canonicalize upper s)
  = textproto.canonicalize upper s.
Proof.
  revert upper. induction s as [|c s IH]; intros upper; simpl; [done|].
  by rewrite canonByte_idem, IH.
Qed.

Lemma allValid_canonicalize upper (s : string) :
  allValid (textproto.canonicalize upper s) = allValid s.
Proof.
  unfold allValid. revert upper. induction s as [|c s IH]; intros upper; simpl; [done|].
  by rewrite valid_canonByte, IH.
Qed.

(** Canonical forms are fixed by [CanonicalMIMEHeaderKey]. *)
Lemma canon_idem (k : string) : canon (canon k) = canon k.
Proof.
  rewrite !canon_canonicalMIMEHeaderKey. unfold textproto.canonicalMIMEHeaderKey.
  fold (allValid k). destruct (allValid k) eqn:Hv.
  - fold (allValid (textproto.canonicalize true k)).
    by rewrite allValid_canonicalize, Hv, canonicalize_idem.
  - fold (allValid k). by rewrite Hv.
Qed.

Lemma canonKeys_forwardHeaders (entries : Header.entries) (h : Header.t) :
  canonKeys h -> canonKeys (forwardHeaders entries h).
Proof.
  unfold forwardHeaders. revert h.
  induction entries as [|[name vs] entries IH]; intros h Hh; [done|].
  simpl. apply IH. clear IH. revert h Hh.
  induction vs as [|v vs IHv]; intros h Hh; [done|].
  simpl. apply IHv. unfold Header.Add. by apply canonKeys_insert.
Qed.

Lemma canonKeys_empty : canonKeys ∅.
Proof. intros k Hk. rewrite lookup_empty in Hk. by destruct Hk. Qed.

Lemma canonKeys_delete (k : string) (h : Header.t) :
  canonKeys h -> canonKeys (delete k h).
Proof.
  intros Hh k' Hk'. apply Hh. destruct Hk' as [vs Hvs].
  apply lookup_delete_Some in Hvs as [_ Hvs]. by exists vs.
Qed.

(** X14: whatever the spelling of the keys of the inbound request and
    of the upstream response, every header key of the request sent
    upstream and every header key of the response written to the client
    is in canonical form. *)
Theorem X14_keys_canonical url_Parse client_Do range
    (r : Request.t) (targetServer : string)
    (reqL respL errL : list string) (ups : list Request.t) :
  let start := mkWorld reqL respL errL ResponseWriter.fresh ups in
  let final := (redirectHandler url_Parse client_Do range r targetServer start).2 in
  Forall (fun p => forall k, is_Some (Request.Header p !! k) -> canon k = k)
         (sent start final)
  /\ forall k, is_Some (ResponseWriter.header (w final) !! k) -> canon k = k.
Proof.
  cbv zeta. set (s := mkWorld reqL respL errL ResponseWriter.fresh ups).
  assert (Hfix : forall h : Header.t, canonKeys h ->
                   forall k, is_Some (h !! k) -> canon k = k).
  { intros h Hh k Hk. destruct (Hh k Hk) as [k0 ->]. apply canon_idem. }
  split.
  - eapply Forall_impl; [apply sent_canonKeys|]. intros p Hp. by apply Hfix.
  - apply Hfix.
    pose proof (logRequest_world range r s) as (_ & _ & Hw & _). simpl in Hw.
    destruct (handler_paths url_Parse client_Do range r targetServer s)
      as [(err & _ & _ & ->)
         |[(target & err & _ & _ & _ & ->)
          |[(p & err & _ & _ & ->)
           |[(p & resp & _ & _ & _ & ->)
            |(p & resp & err & _ & _ & _ & ->)]]]];
      try match goal with
          | |- canonKeys (ResponseWriter.header (w (relay ?e ?resp0 ?s0))) =>
              destruct (relay_header e resp0 s0) as [-> | ->]
          end;
      cbn [appendLog withWriter withAttempt w]; rewrite Hw;
      rewrite ?Error_header;
      unfold Header.Set_, Header.Del;
      repeat apply canonKeys_insert; try apply canonKeys_delete;
      try apply canonKeys_forwardHeaders; apply canonKeys_empty.
Qed.

(** * The further properties on the sample data *)

Lemma X1_witness :
  let final :=
    (redirectHandler url.Parse Sample.upstreamCreated mapOrder More.badMethod
       Sample.targetServer newWorld).2 in
  ResponseWriter.status (w final) = Some 500
  /\ ResponseWriter.body (w final) = errorBody "Failed to create request"
  /\ errorLog final
     = ["Failed to create request: net/http: invalid method " +:+ GoStrings.Quote "BAD METHOD"]
  /\ upstream final = []
  /\ responseLog final = [].
Proof.
  exact (X1_request_construction_failure url.Parse Sample.upstreamCreated mapOrder
           More.badMethod Sample.targetServer
           (url.mkURL "http" "" None "api.example.com" "/base" false false "" "")
           ("net/http: invalid method " +:+ GoStrings.Quote "BAD METHOD")
           [] [] [] [] eq_refl eq_refl).
Defined.

Lemma X3_witness :
  ResponseWriter.status
    (w (redirectHandler url.Parse Sample.upstreamCreated mapOrder Sample.request
          Sample.targetServer More.hangingUp).2)
  = Some 201.
Proof.
  apply (X3_status_always_written url.Parse Sample.upstreamCreated mapOrder Sample.request
           Sample.targetServer [] [] [] (Some (2%nat, "write tcp: broken pipe")) []).
  intros p resp _ Hdo. injection Hdo as <-. reflexivity.
Defined.


Lemma X8_witness :
  Request.Header (transformHeaders mapOrder Sample.request Sample.bare)
  = <["X-Added-Header" := ["HeaderValue"]]>
      (<["User-Agent" := ["MyCustomUserAgent"]]> (Request.Header Sample.request)).
Proof.
  apply (X8_transform_parsed mapOrder Sample.request Sample.bare).
  - exact enumerates_mapOrder.
  - apply (bool_decide_unpack _). vm_compute. exact I.
  - reflexivity.
Defined.

Lemma X9_witness :
  url.ResolveReference
    (url.mkURL "http" "" None "api.example.com" "/base/v0" false false "debug=1" "top")
    Sample.inboundURL
  = url.mkURL "http" "" None "api.example.com" "/v1/items" false false "x=1" "".
Proof.
  exact (X9_target_path_dropped
           (url.mkURL "http" "" None "api.example.com" "/base/v0" false false "debug=1" "top")
           Sample.inboundURL eq_refl eq_refl eq_refl eq_refl eq_refl).
Defined.

Lemma X10_witness :
  exists config,
    startsWith (More.system None) config
    /\ "localhost:8080" = "localhost:" +:+ Port config
    /\ calls (main (More.system None) url.Parse Sample.upstreamCreated mapOrder newProcess).2
       = startupCalls config.
Proof.
  apply (X10_listens_after_startup (More.system None) url.Parse Sample.upstreamCreated
           mapOrder "localhost:8080").
  vm_compute. do 5 apply list_elem_of_further. apply list_elem_of_here.
Defined.

Lemma startsWith_badTarget : startsWith More.badTargetSystem More.badTarget.
Proof. split; [by exists []|done]. Qed.

Lemma X12_witness :
  let p := (main More.badTargetSystem url.Parse Sample.upstreamCreated mapOrder
              newProcess).2 in
  http_ListenAndServe "localhost:8080" ∈ calls p
  /\ exists h,
       NonproxyHandler p = Some h
       /\ forall (r : Request.t) (reqL respL errL : list string) (ups : list Request.t),
            let final := (h r (mkWorld reqL respL errL ResponseWriter.fresh ups)).2 in
            ResponseWriter.status (w final) = Some 500
            /\ ResponseWriter.body (w final) = errorBody "Invalid target server URL"
            /\ upstream final = ups.
Proof.
  exact (X12_target_not_checked_at_startup More.badTargetSystem url.Parse
           Sample.upstreamCreated mapOrder More.badTarget
           ("parse " +:+ GoStrings.Quote "://example.com" +:+ ": missing protocol scheme")
           startsWith_badTarget eq_refl).
Defined.

